(** * kafcat: a command-line reader of Kafka topics

    Shallow embedding of [kafcat.py] and proofs about its observable
    behaviour: what it parses, which calls it makes to the Kafka client,
    what it writes and how it exits. *)

From Stdlib Require Import ZArith QArith Ascii String List Lia.
From stdpp Require Import base option list gmap strings pretty.

Local Open Scope string_scope.
Local Open Scope list_scope.
Local Open Scope nat_scope.

(** ** Python values used by the script *)

(** The exceptions that can travel through the script. *)
Inductive exn : Type :=
| GetoptError (msg : string)
| ValueError (literal : string)
| SystemExit (code : Z)
| KeyboardInterrupt
| NameError (name : string)
| IndexError
| AttributeError (attr : string)
| KafkaUnavailableError
| UnknownTopicOrPartitionError.

(** A computation without side effects that may raise. *)
Definition pure_result (A : Type) : Type := (exn + A)%type.

(** ** Byte-string helpers (Python 2 [str]) *)
Module PyStr.

(** [s.startswith(p)] *)
Definition startswith (s p : string) : bool := String.prefix p s.

(** [s.find(c)] for a one-character needle: the first index, if any. *)
Fixpoint find (c : ascii) (s : string) : option nat :=
  match s with
  | EmptyString => None
  | String d rest =>
      if Ascii.eqb c d then Some 0 else option_map S (find c rest)
  end.

(** [s[:i]] *)
Fixpoint take (i : nat) (s : string) : string :=
  match i, s with
  | S j, String c rest => String c (take j rest)
  | _, _ => EmptyString
  end.

(** [s[i:]] *)
Fixpoint drop (i : nat) (s : string) : string :=
  match i, s with
  | S j, String _ rest => drop j rest
  | _, _ => s
  end.

(** [s.endswith(c)] for a one-character suffix. *)
Fixpoint endswith_char (s : string) (c : ascii) : bool :=
  match s with
  | EmptyString => false
  | String d EmptyString => Ascii.eqb c d
  | String _ rest => endswith_char rest c
  end.

(** [s[:-1]] *)
Fixpoint chop (s : string) : string :=
  match s with
  | EmptyString => EmptyString
  | String _ EmptyString => EmptyString
  | String c rest => String c (chop rest)
  end.

(** [s.rfind(c)]: the last index of [c], if any. *)
Fixpoint rfind (c : ascii) (s : string) : option nat :=
  match s with
  | EmptyString => None
  | String d rest =>
      match rfind c rest with
      | Some i => Some (S i)
      | None => if Ascii.eqb c d then Some 0 else None
      end
  end.

(** [c.isspace()] in the C locale. *)
Definition isspace (c : ascii) : bool :=
  let n := nat_of_ascii c in
  Nat.eqb n 32 || (Nat.leb 9 n && Nat.leb n 13).

(** [c.isdigit()] *)
Definition isdigit (c : ascii) : bool :=
  let n := nat_of_ascii c in Nat.leb 48 n && Nat.leb n 57.

Fixpoint lstrip (s : string) : string :=
  match s with
  | String c rest => if isspace c then lstrip rest else s
  | EmptyString => EmptyString
  end.

Fixpoint rstrip (s : string) : string :=
  match s with
  | EmptyString => EmptyString
  | String c rest =>
      match rstrip rest with
      | EmptyString => if isspace c then EmptyString else String c EmptyString
      | r => String c r
      end
  end.

(** [s.strip()] *)
Definition strip (s : string) : string := rstrip (lstrip s).

Fixpoint all_digits (s : string) : bool :=
  match s with
  | EmptyString => true
  | String c rest => isdigit c && all_digits rest
  end.

(** Value of a run of decimal digits, most significant first. *)
Fixpoint digits_value (acc : Z) (s : string) : Z :=
  match s with
  | EmptyString => acc
  | String c rest =>
      digits_value (10 * acc + (Z.of_nat (nat_of_ascii c) - 48))%Z rest
  end.

End PyStr.

(** [int(s)] on a byte string: optional surrounding white space, an optional
    sign, then at least one decimal digit; anything else raises
    [ValueError]. *)
Definition py_int (s : string) : pure_result Z :=
  let body := PyStr.strip s in
  let '(neg, ds) :=
    match body with
    | String "-" rest => (true, rest)
    | String "+" rest => (false, rest)
    | _ => (false, body)
    end in
  match ds with
  | EmptyString => inl (ValueError s)
  | _ =>
      if PyStr.all_digits ds
      then inr (if neg : bool then (- PyStr.digits_value 0 ds)%Z
                else PyStr.digits_value 0 ds)
      else inl (ValueError s)
  end.

(** [str(n)] for an integer. *)
Definition py_str (n : Z) : string := pretty n.

(** [os.path.basename(p)]: what follows the last slash. *)
Definition basename (p : string) : string :=
  match PyStr.rfind "/" p with
  | Some i => PyStr.drop (S i) p
  | None => p
  end.

(** ** The standard [getopt] module

    The functions of Python's [Lib/getopt.py] that [getopt.getopt] runs
    through, with [GetoptError] as the left summand of the result. *)
Module Getopt.

(** [short_has_arg(opt, shortopts)] *)
Fixpoint short_has_arg (opt : ascii) (shortopts : string) : pure_result bool :=
  match shortopts with
  | EmptyString =>
      inl (GetoptError ("option -" +:+ String opt "" +:+ " not recognized"))
  | String c rest =>
      if Ascii.eqb opt c && negb (Ascii.eqb c ":")
      then inr (PyStr.startswith rest ":")
      else short_has_arg opt rest
  end.

(** [do_shorts(opts, optstring, shortopts, args)] *)
Fixpoint do_shorts (opts : list (string * string)) (optstring shortopts : string)
    (args : list string) : pure_result (list (string * string) * list string) :=
  match optstring with
  | EmptyString => inr (opts, args)
  | String opt optstring' =>
      match short_has_arg opt shortopts with
      | inl e => inl e
      | inr true =>
          match optstring', args with
          | EmptyString, [] =>
              inl (GetoptError
                     ("option -" +:+ String opt "" +:+ " requires argument"))
          | EmptyString, a :: args' =>
              inr (opts ++ [("-" +:+ String opt "", a)], args')
          | _, _ =>
              inr (opts ++ [("-" +:+ String opt "", optstring')], args)
          end
      | inr false =>
          do_shorts (opts ++ [("-" +:+ String opt "", "")])
                    optstring' shortopts args
      end
  end.

(** [long_has_args(opt, longopts)] *)
Definition long_has_args (opt : string) (longopts : list string)
    : pure_result (bool * string) :=
  let possibilities := List.filter (fun o => PyStr.startswith o opt) longopts in
  match possibilities with
  | [] => inl (GetoptError ("option --" +:+ opt +:+ " not recognized"))
  | unique_match :: others =>
      if bool_decide (opt ∈ possibilities) then inr (false, opt)
      else if bool_decide ((opt +:+ "=") ∈ possibilities) then inr (true, opt)
      else
        match others with
        | _ :: _ =>
            inl (GetoptError ("option --" +:+ opt +:+ " not a unique prefix"))
        | [] =>
            if PyStr.endswith_char unique_match "="
            then inr (true, PyStr.chop unique_match)
            else inr (false, unique_match)
        end
  end.

(** [do_longs(opts, opt, longopts, args)] *)
Definition do_longs (opts : list (string * string)) (opt : string)
    (longopts : list string) (args : list string)
    : pure_result (list (string * string) * list string) :=
  let '(opt, optarg) :=
    match PyStr.find "=" opt with
    | None => (opt, None)
    | Some i => (PyStr.take i opt, Some (PyStr.drop (S i) opt))
    end in
  match long_has_args opt longopts with
  | inl e => inl e
  | inr (has_arg, opt) =>
      if has_arg : bool then
        match optarg, args with
        | None, [] =>
            inl (GetoptError ("option --" +:+ opt +:+ " requires argument"))
        | None, a :: args' => inr (opts ++ [("--" +:+ opt, a)], args')
        | Some v, _ => inr (opts ++ [("--" +:+ opt, v)], args)
        end
      else
        match optarg with
        | Some _ =>
            inl (GetoptError
                   ("option --" +:+ opt +:+ " must not have an argument"))
        | None => inr (opts ++ [("--" +:+ opt, "")], args)
        end
  end.

(** The [while] loop of [getopt]; every round consumes at least one
    argument, so [fuel] above the number of arguments is never used up. *)
Fixpoint getopt_loop (fuel : nat) (opts : list (string * string))
    (args : list string) (shortopts : string) (longopts : list string)
    : option (pure_result (list (string * string) * list string)) :=
  match fuel with
  | O => None
  | S fuel' =>
      match args with
      | [] => Some (inr (opts, args))
      | a :: args' =>
          if PyStr.startswith a "-" && negb (String.eqb a "-") then
            if String.eqb a "--" then Some (inr (opts, args'))
            else
              let r :=
                if PyStr.startswith a "--"
                then do_longs opts (PyStr.drop 2 a) longopts args'
                else do_shorts opts (PyStr.drop 1 a) shortopts args' in
              match r with
              | inl e => Some (inl e)
              | inr (opts', rest) =>
                  getopt_loop fuel' opts' rest shortopts longopts
              end
          else Some (inr (opts, args))
      end
  end.

(** [getopt.getopt(args, shortopts, longopts)] *)
Definition getopt (args : list string) (shortopts : string)
    (longopts : list string)
    : option (pure_result (list (string * string) * list string)) :=
  getopt_loop (S (length args)) [] args shortopts longopts.

End Getopt.

(** [dict(pairs)]: later pairs overwrite earlier ones with the same key. *)
Definition dict (pairs : list (string * string)) : gmap string string :=
  fold_left (fun d kv => <[kv.1 := kv.2]> d) pairs ∅.

(** [key in d] *)
Definition dict_in (key : string) (d : gmap string string) : bool :=
  bool_decide (is_Some (d !! key)).

(** [d.get(key, default)] *)
Definition dict_get (d : gmap string string) (key dflt : string) : string :=
  default dflt (d !! key).

(** ** The world the script runs in *)

(** One partition of a topic: the offset of its oldest retained message, the
    retained messages in offset order, and the offset stored for the
    consumer group ["kafcat"]. *)
Record Partition : Type := mkPartition {
  p_start : nat;
  p_log : list string;
  p_committed : nat
}.

(** The [SimpleConsumer] object: its topic, its read position in every
    partition and the [iter_timeout] it was built with. *)
Record Consumer : Type := mkConsumer {
  c_topic : string;
  c_offsets : list nat;
  c_iter_timeout : option Q
}.

(** What an observer of the process can see, in the order it happens. *)
Inductive event : Type :=
| EvConnect (hostport : string)
| EvConsumer (group topic : string) (iter_timeout : option Q)
| EvSeek (offset whence : Z)
| EvCommit (offsets : list nat)
| EvFetched (partition offset : nat) (payload : string)
| EvStdout (text : string)
| EvStderr (text : string).

(** What the script does not control: its command line, the instant of the
    user's interrupt, the producers of the topic and the broker's health.
    [interrupt_at = Some k] delivers the interrupt at the [k]-th statement
    started inside the [try] block (counted from 0); [produced k] lists the
    messages, each with its partition, that reach the consumed topic before
    the consumer's [k]-th fetch. *)
Record Env : Type := mkEnv {
  sys_argv0 : string;
  sys_argv_tail : list string;
  interrupt_at : option nat;
  produced : nat -> list (nat * string);
  broker_up : bool
}.

(** The state of a run: what has been observed so far, the broker, the
    script's variable [consumer] with the state of the object it is bound
    to, the number of statements of the [try] block started so far and the
    number of fetches the consumer has made. *)
Record World : Type := mkWorld {
  events : list event;
  broker : gmap string (list Partition);
  consumer : option Consumer;
  clock : nat;
  polls : nat
}.

Definition init_world (b : gmap string (list Partition)) : World :=
  {| events := []; broker := b; consumer := None; clock := 0; polls := 0 |}.

Definition set_events (f : list event -> list event) (w : World) : World :=
  {| events := f (events w); broker := broker w; consumer := consumer w;
     clock := clock w; polls := polls w |}.
Definition set_broker (b : gmap string (list Partition)) (w : World) : World :=
  {| events := events w; broker := b; consumer := consumer w;
     clock := clock w; polls := polls w |}.
Definition set_consumer (c : option Consumer) (w : World) : World :=
  {| events := events w; broker := broker w; consumer := c;
     clock := clock w; polls := polls w |}.
Definition set_clock (n : nat) (w : World) : World :=
  {| events := events w; broker := broker w; consumer := consumer w;
     clock := n; polls := polls w |}.
Definition set_polls (n : nat) (w : World) : World :=
  {| events := events w; broker := broker w; consumer := consumer w;
     clock := clock w; polls := n |}.

(** The partitions of a topic; a topic the broker does not know has none. *)
Definition partitions (b : gmap string (list Partition)) (topic : string)
    : list Partition :=
  default [] (b !! topic).

(** ** The monad of the script: state, exceptions and fuel *)

(** [Running] stands for a computation that has not finished within the
    fuel it was given. *)
Inductive result (A : Type) : Type :=
| Ok (a : A)
| Raise (e : exn)
| Running.
Arguments Ok {A} a.
Arguments Raise {A} e.
Arguments Running {A}.

Definition M (A : Type) : Type := Env -> World -> result A * World.

Definition ret {A} (a : A) : M A := fun _ w => (Ok a, w).
Definition raise {A} (e : exn) : M A := fun _ w => (Raise e, w).
Definition running {A} : M A := fun _ w => (Running, w).
Definition bind {A B} (m : M A) (k : A -> M B) : M B :=
  fun env w =>
    match m env w with
    | (Ok a, w') => k a env w'
    | (Raise e, w') => (Raise e, w')
    | (Running, w') => (Running, w')
    end.

#[global] Instance M_ret : MRet M := @ret.
#[global] Instance M_bind : MBind M := fun A B k m => bind m k.

(** [try: m except: h]; [h e = None] when no clause matches [e]. *)
Definition try_except {A} (m : M A) (h : exn -> option (M A)) : M A :=
  fun env w =>
    match m env w with
    | (Raise e, w') =>
        match h e with
        | Some handler => handler env w'
        | None => (Raise e, w')
        end
    | other => other
    end.

Definition lift {A} (r : pure_result A) : M A :=
  match r with
  | inl e => raise e
  | inr a => ret a
  end.

Definition get_env : M Env := fun env w => (Ok env, w).
Definition get_world : M World := fun _ w => (Ok w, w).
Definition modify (f : World -> World) : M unit := fun _ w => (Ok tt, f w).
Definition emit (ev : event) : M unit :=
  modify (set_events (fun evs => evs ++ [ev])).

(** A statement of the [try] block: the pending interrupt, if this is its
    instant, surfaces as [KeyboardInterrupt] instead of the statement. *)
Definition interruptible {A} (m : M A) : M A :=
  fun env w =>
    let w' := set_clock (S (clock w)) w in
    if bool_decide (interrupt_at env = Some (clock w))
    then (Raise KeyboardInterrupt, w')
    else m env w'.

(** The exit status the shell sees; an exception nobody catches ends the
    interpreter with status 1. *)
Definition exit_status {A} (r : result A) : option Z :=
  match r with
  | Ok _ => Some 0%Z
  | Raise (SystemExit code) => Some code
  | Raise _ => Some 1%Z
  | Running => None
  end.

(** ** The [sys] module *)

Definition nl : string := String (ascii_of_nat 10) "".

Definition sys_stdout_write (text : string) : M unit := emit (EvStdout text).
Definition sys_stderr_write (text : string) : M unit := emit (EvStderr text).
Definition sys_exit {A} (code : Z) : M A := raise (SystemExit code).

(** ** The Kafka client library

    The [kafka] package is an external collaborator whose code is not part
    of the repository. The model keeps what the specification's data model
    says of it: a topic is a set of append-only partitions, the consumer
    holds one offset per partition, starts from the offsets stored for its
    group, advances an offset when it hands a message over, and [commit]
    stores the offsets it holds. *)
Module Kafka.

(** The message of partition [p] at offset [o], when it is retained. *)
Definition fetch (p : Partition) (o : nat) : option string :=
  if p_start p <=? o then p_log p !! (o - p_start p) else None.

(** Offset one past the newest message of [p]. *)
Definition p_end (p : Partition) : nat := p_start p + length (p_log p).

(** The first partition, from number [i] on, that has a message at the
    consumer's offset: its number, that offset and the payload. *)
Fixpoint first_available (i : nat) (parts : list Partition) (offs : list nat)
    : option (nat * nat * string) :=
  match parts, offs with
  | p :: parts', o :: offs' =>
      match fetch p o with
      | Some m => Some (i, o, m)
      | None => first_available (S i) parts' offs'
      end
  | _, _ => None
  end.

Definition append_message (parts : list Partition) (pm : nat * string)
    : list Partition :=
  alter (fun p => mkPartition (p_start p) (p_log p ++ [pm.2]) (p_committed p))
        pm.1 parts.

(** The producers' messages [new] reach the partitions. *)
Definition deliver (new : list (nat * string)) (parts : list Partition)
    : list Partition :=
  fold_left append_message new parts.

Fixpoint store_offsets (parts : list Partition) (offs : list nat)
    : list Partition :=
  match parts, offs with
  | p :: parts', o :: offs' =>
      mkPartition (p_start p) (p_log p) o :: store_offsets parts' offs'
  | _, _ => parts
  end.

(** The object bound to the script's variable [consumer]; calling a method
    on [None] raises [AttributeError]. *)
Definition self (method : string) : M Consumer :=
  w ← get_world;
  match consumer w with
  | Some c => ret c
  | None => raise (AttributeError method)
  end.

Definition set_offsets (offs : list nat) : M unit :=
  c ← self "offsets";
  modify (set_consumer
            (Some (mkConsumer (c_topic c) offs (c_iter_timeout c)))).

(** Modelled from the spec: [kafka.KafkaClient(hostport)] opens the
    connection to the broker; a failure is an exception. *)
Definition KafkaClient (hostport : string) : M unit :=
  emit (EvConnect hostport);;
  env ← get_env;
  if broker_up env then ret tt else raise KafkaUnavailableError.

(** Modelled from the spec:
    [kafka.SimpleConsumer(client, group, topic, iter_timeout)] binds a
    consumer to the topic; it starts from the offsets stored for the group.
    A topic the broker does not know is a fatal setup error: the
    constructor raises. *)
Definition SimpleConsumer (client : unit) (group topic : string)
    (iter_timeout : option Q) : M Consumer :=
  emit (EvConsumer group topic iter_timeout);;
  w ← get_world;
  match broker w !! topic with
  | None => raise UnknownTopicOrPartitionError
  | Some parts => ret (mkConsumer topic (map p_committed parts) iter_timeout)
  end.

(** Modelled from the spec: [consumer.seek(offset, whence)] moves the
    offset of every partition, relative to the oldest retained message (0),
    to the current position (1) or to the end (2). *)
Definition seek (offset whence : Z) : M unit :=
  c ← self "seek";
  w ← get_world;
  emit (EvSeek offset whence);;
  let parts := partitions (broker w) (c_topic c) in
  let shift (base : nat) := Z.to_nat (Z.of_nat base + offset) in
  match whence with
  | 0%Z => set_offsets (map (fun p => shift (p_start p)) parts)
  | 1%Z => set_offsets (map shift (c_offsets c))
  | 2%Z => set_offsets (map (fun p => shift (p_end p)) parts)
  | _ => raise (ValueError "whence")
  end.

(** Modelled from the spec: [consumer.commit()] stores the consumer's
    offsets at the broker. *)
Definition commit : M unit :=
  c ← self "commit";
  emit (EvCommit (c_offsets c));;
  w ← get_world;
  modify (set_broker
            (alter (fun parts => store_offsets parts (c_offsets c))
                   (c_topic c) (broker w))).

(** One round of the consumer's iterator. *)
Inductive fetched : Type :=
| Message (payload : string)
| NothingYet
| StopIteration.

(** Modelled from the spec: one round of [iter(consumer)]. The iterator
    hands over the next message if one is there and advances the offset of
    its partition. If none is, it stops when the consumer has an
    [iter_timeout] and keeps waiting when it has none. *)
Definition next : M fetched :=
  c ← self "next";
  env ← get_env;
  w ← get_world;
  let b := alter (deliver (produced env (polls w))) (c_topic c) (broker w) in
  modify (fun w => set_polls (S (polls w)) (set_broker b w));;
  match first_available 0 (partitions b (c_topic c)) (c_offsets c) with
  | Some (i, o, m) =>
      set_offsets (<[i := S o]> (c_offsets c));;
      emit (EvFetched i o m);;
      ret (Message m)
  | None =>
      match c_iter_timeout c with
      | None => ret NothingYet
      | Some _ => ret StopIteration
      end
  end.

End Kafka.

(** ** The script *)

(** The text [usage] prints for a program called [argv0]. *)
Definition usage_text (argv0 : string) : string :=
  "Usage: " +:+ argv0 +:+ " [options] topicname" +:+ nl +:+
  " Options:" +:+ nl +:+
  "  --host Host   Kafka node hostname. Default is " +:+
    String (ascii_of_nat 34) "localhost" +:+ String (ascii_of_nat 34) ";" +:+ nl +:+
  "  --port Port   Kafka node port number. Default is 9092;" +:+ nl +:+
  "  -b            extract from the beginning;" +:+ nl +:+
  "  -f            output appended data as the topic grows." +:+ nl.

(** [usage(exitcode)]; the script only calls it with the default
    [exitcode = 1]. *)
Definition usage (exitcode : Z) : M unit :=
  env ← get_env;
  let argv0 := basename (sys_argv0 env) in
  sys_stdout_write (usage_text argv0);;
  sys_exit exitcode.

(** [getopt.getopt(sys.argv[1:], 'bf', ['host=', 'port='])] followed by
    [dict(cmd_opts)]. *)
Definition parse_options : M (gmap string string * list string) :=
  env ← get_env;
  match Getopt.getopt (sys_argv_tail env) "bf" ["host="; "port="] with
  | None => running
  | Some r =>
      '(cmd_opts, cmd_args) ← lift r;
      ret (dict cmd_opts, cmd_args)
  end.

(** [for message in consumer: body(message)]; one unit of [fuel] per round
    of the iterator. *)
Fixpoint for_in_consumer (fuel : nat) (body : string -> M unit) : M unit :=
  match fuel with
  | O => running
  | S fuel' =>
      r ← interruptible Kafka.next;
      match r with
      | Kafka.Message m => body m;; for_in_consumer fuel' body
      | Kafka.NothingYet => for_in_consumer fuel' body
      | Kafka.StopIteration => ret tt
      end
  end.

(** The body of the [try] statement. *)
Definition try_block (fuel : nat) (cmd_opts : gmap string string)
    (cmd_args : list string) : M unit :=
  let host := dict_get cmd_opts "--host" "localhost" in
  port ← lift (py_int (dict_get cmd_opts "--port" "9092"));
  client ← interruptible (Kafka.KafkaClient (host +:+ ":" +:+ py_str port));
  topic ← match cmd_args with t :: _ => ret t | [] => raise IndexError end;
  c ← interruptible
        (Kafka.SimpleConsumer client "kafcat" topic
           (if dict_in "-f" cmd_opts then None else Some (1 # 2)%Q));
  modify (set_consumer (Some c));;
  (if dict_in "-b" cmd_opts
   then interruptible (Kafka.seek 0 0);; interruptible Kafka.commit
   else ret tt);;
  for_in_consumer fuel
    (fun message => interruptible (sys_stdout_write (message +:+ nl)));;
  interruptible Kafka.commit.

(** The [except KeyboardInterrupt] clause. *)
Definition on_interrupt : M unit :=
  w ← get_world;
  (if consumer w is Some _ then Kafka.commit else ret tt);;
  sys_exit 130.

(** The [__main__] block. *)
Definition main (fuel : nat) : M unit :=
  '(cmd_opts, cmd_args) ←
    try_except parse_options
      (fun exc =>
         match exc with
         | GetoptError msg =>
             Some (sys_stderr_write ("Error: " +:+ msg +:+ nl);;
                   usage 1;;
                   raise (NameError "cmd_args"))
         | _ => None
         end);
  (if bool_decide (length cmd_args ≠ 1) then usage 1 else ret tt);;
  modify (set_consumer None);;
  try_except (try_block fuel cmd_opts cmd_args)
    (fun exc =>
       match exc with
       | KeyboardInterrupt => Some on_interrupt
       | _ => None
       end).

(** A run of the program from a given state of the broker. *)
Definition run (fuel : nat) (env : Env) (b : gmap string (list Partition))
    : result unit * World :=
  main fuel env (init_world b).

(** ** Vocabulary of the statements *)

(** What the script's call of [getopt] makes of a command line. *)
Definition kafcat_getopt (args : list string)
    : option (pure_result (list (string * string) * list string)) :=
  Getopt.getopt args "bf" ["host="; "port="].

(** The command line parses into the options [opts] and the single
    positional argument [topic]. *)
Definition accepted (args : list string) (opts : list (string * string))
    (topic : string) : Prop :=
  kafcat_getopt args = Some (inr (opts, [topic])).

(** The command line is turned down by one of the script's two checks:
    [getopt] raises, or the number of positional arguments is not one. *)
Definition malformed (args : list string) : Prop :=
  (exists msg, kafcat_getopt args = Some (inl (GetoptError msg))) \/
  (exists opts positional,
      kafcat_getopt args = Some (inr (opts, positional)) /\
      length positional ≠ 1).

(** The value given to [--port], or its default. *)
Definition port_text (opts : list (string * string)) : string :=
  dict_get (dict opts) "--port" "9092".

(** A command line that is malformed or whose port is not an integer. *)
Definition invalid (args : list string) : Prop :=
  malformed args \/
  (exists opts topic e,
      accepted args opts topic /\ py_int (port_text opts) = inl e).

(** The option [key] occurs among the parsed options. *)
Definition given (key : string) (opts : list (string * string)) : Prop :=
  key ∈ opts.*1.

(** The value of the last occurrence of [key] among the parsed options. *)
Definition last_value (key : string) (opts : list (string * string))
    : option string :=
  last (List.filter (fun kv => String.eqb kv.1 key) opts).*2.

Definition is_connect (ev : event) : Prop :=
  match ev with EvConnect _ => True | _ => False end.
Definition is_commit (ev : event) : Prop :=
  match ev with EvCommit _ => True | _ => False end.
Definition is_seek (ev : event) : Prop :=
  match ev with EvSeek _ _ => True | _ => False end.
Definition is_stderr (ev : event) : Prop :=
  match ev with EvStderr _ => True | _ => False end.
Definition is_kafka_call (ev : event) : Prop :=
  match ev with EvStdout _ | EvStderr _ => False | _ => True end.

(** The texts written to standard output, one per call of [write]. *)
Definition stdout_writes (evs : list event) : list string :=
  omap (fun ev => match ev with EvStdout s => Some s | _ => None end) evs.

(** Everything written to standard output so far. *)
Definition stdout_of (evs : list event) : string :=
  foldr String.append "" (stdout_writes evs).

(** The payloads the consumer's iterator handed over, in order. *)
Definition fetched_payloads (evs : list event) : list string :=
  omap (fun ev => match ev with EvFetched _ _ m => Some m | _ => None end) evs.

(** The events of consuming and printing the messages [ms], each given with
    its partition and offset. *)
Definition loop_trace (ms : list (nat * nat * string)) : list event :=
  flat_map (fun '(i, o, m) => [EvFetched i o m; EvStdout (m +:+ nl)]) ms.

(** The offsets stored at the broker for the group, per partition. *)
Definition committed (b : gmap string (list Partition)) (topic : string)
    : list nat :=
  map p_committed (partitions b topic).

(** The oldest retained offset of every partition. *)
Definition earliest (b : gmap string (list Partition)) (topic : string)
    : list nat :=
  map p_start (partitions b topic).

(** From the [n]-th fetch on no producer adds a message. *)
Definition quiet_from (n : nat) (env : Env) : Prop :=
  forall k, n <= k -> produced env k = [].

(** The consumer's offsets after it handed over the messages [ms]. *)
Definition advance (offs : list nat) (ms : list (nat * nat * string))
    : list nat :=
  fold_left (fun offs '(i, o, _) => <[i := S o]> offs) ms offs.

(** The feed of a topic: the messages, each with its partition and offset,
    that a consumer at the offsets [offs] is handed in [rounds] rounds of
    its iterator when nothing disturbs it. Before round [k] the producers'
    messages [prod k] reach the partitions; a consumer with a timeout is
    handed nothing more after the first round that finds no message. *)
Fixpoint feed (rounds : nat) (prod : nat -> list (nat * string)) (k : nat)
    (parts : list Partition) (offs : list nat) (timeout : option Q)
    : list (nat * nat * string) :=
  match rounds with
  | O => []
  | S rounds' =>
      let parts' := Kafka.deliver (prod k) parts in
      match Kafka.first_available 0 parts' offs with
      | Some (i, o, m) =>
          (i, o, m) :: feed rounds' prod (S k) parts' (<[i := S o]> offs) timeout
      | None =>
          match timeout with
          | Some _ => []
          | None => feed rounds' prod (S k) parts' offs timeout
          end
      end
  end.

(** The ways the [for] loop can be left, or not: the iterator stopped, the
    fuel ran out, the interrupt came while waiting for a message, or it
    came at the [write] of a message already handed over. *)
Inductive loop_end : Type :=
| Exhausted
| StillRunning
| InterruptedWaiting
| InterruptedWriting (partition offset : nat) (payload : string).

Definition result_of (e : loop_end) : result unit :=
  match e with
  | Exhausted => Ok tt
  | StillRunning => Running
  | InterruptedWaiting | InterruptedWriting _ _ _ => Raise KeyboardInterrupt
  end.

(** The message handed over but not written, if any. *)
Definition unwritten (e : loop_end) : list (nat * nat * string) :=
  match e with
  | InterruptedWriting i o m => [(i, o, m)]
  | _ => []
  end.

Definition fetch_events (ms : list (nat * nat * string)) : list event :=
  map (fun '(i, o, m) => EvFetched i o m) ms.

(** The loop's body. *)
Definition print_message (message : string) : M unit :=
  interruptible (sys_stdout_write (message +:+ nl)).

(** The interrupt does not fall on a statement numbered from [from] up to,
    but not including, [to]. *)
Definition undisturbed (env : Env) (from to : nat) : Prop :=
  forall k, interrupt_at env = Some k -> from <= k -> to <= k.

(** The world once the consumer of [topic] has committed the offsets [offs]. *)
Definition stored (topic : string) (offs : list nat) (w : World) : World :=
  set_broker
    (alter (fun parts => Kafka.store_offsets parts offs) topic (broker w))
    (set_events (fun evs => evs ++ [EvCommit offs]) w).

(** The handler of the [try] statement. *)
Definition handler (exc : exn) : option (M unit) :=
  match exc with
  | KeyboardInterrupt => Some on_interrupt
  | _ => None
  end.

(** The [for] loop and the commit after it, under the [try] statement. *)
Definition stream (fuel : nat) : M unit :=
  try_except
    (for_in_consumer fuel print_message;; interruptible Kafka.commit) handler.

(** The address the script connects to. *)
Definition hostport (opts : list (string * string)) (port : Z) : string :=
  dict_get (dict opts) "--host" "localhost" +:+ ":" +:+ py_str port.

(** The [iter_timeout] the script asks for. *)
Definition iter_timeout_of (opts : list (string * string)) : option Q :=
  if dict_in "-f" (dict opts) then None else Some (1 # 2)%Q.

(** The world after the connection, after the construction of the consumer,
    after the seek to the oldest messages and after the commit that follows
    it. *)
Definition w_connected (b : gmap string (list Partition)) (addr : string)
    : World :=
  {| events := [EvConnect addr]; broker := b; consumer := None;
     clock := 1; polls := 0 |}.

Definition w_declined (b : gmap string (list Partition)) (addr topic : string)
    (timeout : option Q) : World :=
  {| events := [EvConnect addr; EvConsumer "kafcat" topic timeout];
     broker := b; consumer := None; clock := 2; polls := 0 |}.

Definition w_bound (b : gmap string (list Partition)) (addr topic : string)
    (timeout : option Q) : World :=
  {| events := [EvConnect addr; EvConsumer "kafcat" topic timeout];
     broker := b;
     consumer := Some (mkConsumer topic (committed b topic) timeout);
     clock := 2; polls := 0 |}.

Definition w_sought (b : gmap string (list Partition)) (addr topic : string)
    (timeout : option Q) : World :=
  {| events := [EvConnect addr; EvConsumer "kafcat" topic timeout; EvSeek 0 0];
     broker := b;
     consumer := Some (mkConsumer topic (earliest b topic) timeout);
     clock := 3; polls := 0 |}.

Definition w_reset (b : gmap string (list Partition)) (addr topic : string)
    (timeout : option Q) : World :=
  stored topic (earliest b topic) (set_clock 4 (w_sought b addr topic timeout)).

(** How a run that reached the loop in the world [w], with the consumer at
    the offsets [offs], can end. *)
Inductive streamed (env : Env) (w : World) (topic : string) (offs : list nat)
    (timeout : option Q) : result unit -> World -> Prop :=
| streamed_completed fetched w' :
    events w' = events w ++ loop_trace fetched ++ [EvCommit (advance offs fetched)] ->
    consumer w' = Some (mkConsumer topic (advance offs fetched) timeout) ->
    committed (broker w') topic = advance offs fetched ->
    Kafka.first_available 0 (partitions (broker w') topic) (advance offs fetched)
      = None ->
    is_Some timeout ->
    undisturbed env (clock w) (clock w') ->
    streamed env w topic offs timeout (Ok tt) w'
| streamed_running fetched w' :
    events w' = events w ++ loop_trace fetched ->
    consumer w' = Some (mkConsumer topic (advance offs fetched) timeout) ->
    committed (broker w') topic = committed (broker w) topic ->
    undisturbed env (clock w) (clock w') ->
    streamed env w topic offs timeout Running w'
| streamed_interrupted fetched pending w' :
    length pending <= 1 ->
    events w' =
      events w ++ loop_trace fetched ++ fetch_events pending ++
      [EvCommit (advance offs (fetched ++ pending))] ->
    consumer w' =
      Some (mkConsumer topic (advance offs (fetched ++ pending)) timeout) ->
    committed (broker w') topic = advance offs (fetched ++ pending) ->
    interrupt_at env = Some (pred (clock w')) ->
    clock w < clock w' ->
    streamed env w topic offs timeout (Raise (SystemExit 130)) w'.

(** The world in which the loop starts, and the offsets the consumer has
    there: the oldest ones after [-b], the stored ones otherwise. *)
Definition w_start (b : gmap string (list Partition))
    (opts : list (string * string)) (topic : string) (port : Z) : World :=
  if dict_in "-b" (dict opts)
  then w_reset b (hostport opts port) topic (iter_timeout_of opts)
  else w_bound b (hostport opts port) topic (iter_timeout_of opts).

Definition start_offsets (b : gmap string (list Partition))
    (opts : list (string * string)) (topic : string) : list nat :=
  if dict_in "-b" (dict opts) then earliest b topic else committed b topic.

(** The ways a run of an accepted command line can go: cut short by the
    interrupt before the connection, by a broker that is down, by the
    interrupt before the consumer exists, by the interrupt at the seek or at
    the commit that follows it, or reaching the loop. *)
Inductive run_case (env : Env) (b : gmap string (list Partition))
    (opts : list (string * string)) (topic : string) (port : Z)
    : result unit -> World -> Prop :=
| case_interrupted_connecting :
    interrupt_at env = Some 0 ->
    run_case env b opts topic port
      (Raise (SystemExit 130)) (set_clock 1 (init_world b))
| case_broker_down :
    interrupt_at env ≠ Some 0 ->
    broker_up env = false ->
    run_case env b opts topic port
      (Raise KafkaUnavailableError) (w_connected b (hostport opts port))
| case_interrupted_binding :
    interrupt_at env = Some 1 ->
    run_case env b opts topic port
      (Raise (SystemExit 130)) (set_clock 2 (w_connected b (hostport opts port)))
| case_interrupted_seeking :
    dict_in "-b" (dict opts) = true ->
    interrupt_at env = Some 2 ->
    run_case env b opts topic port
      (Raise (SystemExit 130))
      (stored topic (committed b topic)
         (set_clock 3 (w_bound b (hostport opts port) topic (iter_timeout_of opts))))
| case_interrupted_resetting :
    dict_in "-b" (dict opts) = true ->
    interrupt_at env = Some 3 ->
    run_case env b opts topic port
      (Raise (SystemExit 130))
      (stored topic (earliest b topic)
         (set_clock 4 (w_sought b (hostport opts port) topic (iter_timeout_of opts))))
| case_streamed r w :
    broker_up env = true ->
    undisturbed env 0 (clock (w_start b opts topic port)) ->
    streamed env (w_start b opts topic port) topic (start_offsets b opts topic)
      (iter_timeout_of opts) r w ->
    is_Some (b !! topic) ->
    run_case env b opts topic port r w
| case_unknown_topic :
    interrupt_at env ≠ Some 0 ->
    interrupt_at env ≠ Some 1 ->
    broker_up env = true ->
    b !! topic = None ->
    run_case env b opts topic port
      (Raise UnknownTopicOrPartitionError)
      (w_declined b (hostport opts port) topic (iter_timeout_of opts)).

(** ** The scenario of the specification

    Topic ["orders"] holds ["A"], ["B"], ["C"] at offsets 0, 1, 2 in one
    partition and the stored offset is 1. *)
Definition orders_broker : gmap string (list Partition) :=
  {[ "orders" := [mkPartition 0 ["A"; "B"; "C"] 1] ]}.

(** A command line, an instant for the interrupt, silent producers and a
    broker that is up. *)
Definition scenario (args : list string) (interrupt : option nat) : Env :=
  {| sys_argv0 := "/usr/local/bin/kafcat"; sys_argv_tail := args;
     interrupt_at := interrupt; produced := fun _ => []; broker_up := true |}.

(** The number of retained messages of [p] from offset [o] on, and their
    total over the partitions: what a consumer at [offs] has yet to read. *)
Definition unread (p : Partition) (o : nat) : nat :=
  if p_start p <=? o then Kafka.p_end p - o else 0.

Fixpoint backlog (parts : list Partition) (offs : list nat) : nat :=
  match parts, offs with
  | p :: parts', o :: offs' => unread p o + backlog parts' offs'
  | _, _ => 0
  end.

(** The texts written to standard error, one per call of [write]. *)
Definition stderr_writes (evs : list event) : list string :=
  omap (fun ev => match ev with EvStderr s => Some s | _ => None end) evs.


(** What reaches standard error in a run: the texts the script wrote and,
    when an exception other than [SystemExit] ended the run, the traceback
    that the interpreter prints for it. *)
Inductive stderr_item : Type :=
| Written (text : string)
| Traceback (e : exn).

Definition reported (e : exn) : bool :=
  match e with SystemExit _ => false | _ => true end.

Definition standard_error (rw : result unit * World) : list stderr_item :=
  map Written (stderr_writes (events rw.2)) ++
  match rw.1 with
  | Raise e => if reported e then [Traceback e] else []
  | _ => []
  end.



(** Two environments that differ at most in the command line and the name
    of the program. *)
Definition same_surroundings (env1 env2 : Env) : Prop :=
  interrupt_at env1 = interrupt_at env2 /\
  produced env1 = produced env2 /\
  broker_up env1 = broker_up env2.

(** The environment [env] with the interrupt moved to [interrupt]. *)
Definition with_interrupt (interrupt : option nat) (env : Env) : Env :=
  {| sys_argv0 := sys_argv0 env; sys_argv_tail := sys_argv_tail env;
     interrupt_at := interrupt; produced := produced env;
     broker_up := broker_up env |}.

(** The string consists of the letters [b] and [f] only. *)
Fixpoint only_flags (cluster : string) : bool :=
  match cluster with
  | EmptyString => true
  | String c rest =>
      (Ascii.eqb c "b" || Ascii.eqb c "f") && only_flags rest
  end.


(** ** Facts about [getopt] *)
Section GetoptFacts.

Lemma short_has_arg_raises opt shortopts e :
  Getopt.short_has_arg opt shortopts = inl e -> exists msg, e = GetoptError msg.
Proof.
  induction shortopts as [|c rest IH]; simpl; intros H.
  - inversion H; eauto.
  - destruct (_ && _); [discriminate | auto].
Qed.

Lemma do_shorts_raises optstring : forall opts shortopts args e,
  Getopt.do_shorts opts optstring shortopts args = inl e ->
  exists msg, e = GetoptError msg.
Proof.
  induction optstring as [|opt rest IH]; simpl; intros opts so args e H.
  - discriminate.
  - destruct (Getopt.short_has_arg opt so) as [e'|[|]] eqn:E.
    + inversion H; subst. eapply short_has_arg_raises; eauto.
    + destruct rest, args; inversion H; eauto.
    + eauto.
Qed.

Lemma do_shorts_consumes optstring : forall opts shortopts args opts' rest,
  Getopt.do_shorts opts optstring shortopts args = inr (opts', rest) ->
  length rest <= length args.
Proof.
  induction optstring as [|opt tl IH]; simpl; intros opts so args opts' rest H.
  - inversion H; subst; lia.
  - destruct (Getopt.short_has_arg opt so) as [e'|[|]] eqn:E.
    + discriminate.
    + destruct tl, args; inversion H; subst; simpl; lia.
    + eauto.
Qed.

Lemma long_has_args_raises opt longopts e :
  Getopt.long_has_args opt longopts = inl e -> exists msg, e = GetoptError msg.
Proof.
  unfold Getopt.long_has_args.
  destruct (List.filter _ longopts) as [|u others]; intros H.
  - inversion H; eauto.
  - repeat case_bool_decide; try discriminate.
    destruct others; [destruct (PyStr.endswith_char u _); discriminate|].
    inversion H; eauto.
Qed.

Lemma do_longs_raises opts opt longopts args e :
  Getopt.do_longs opts opt longopts args = inl e -> exists msg, e = GetoptError msg.
Proof.
  unfold Getopt.do_longs.
  destruct (PyStr.find "=" opt) as [i|];
    (destruct (Getopt.long_has_args _ longopts) as [e'|[has o]] eqn:E;
     [intros H; inversion H; subst; eapply long_has_args_raises; eauto|]);
    destruct has, args; intros H; inversion H; eauto.
Qed.

Lemma do_longs_consumes opts opt longopts args opts' rest :
  Getopt.do_longs opts opt longopts args = inr (opts', rest) ->
  length rest <= length args.
Proof.
  unfold Getopt.do_longs.
  destruct (PyStr.find "=" opt) as [i|];
    (destruct (Getopt.long_has_args _ longopts) as [e'|[has o]];
     [discriminate|]);
    destruct has, args; intros H; inversion H; subst; simpl; lia.
Qed.

(** The loop of [getopt] never runs out of the fuel [getopt] gives it. *)
Lemma getopt_loop_total shortopts longopts fuel : forall opts args,
  length args < fuel ->
  exists r, Getopt.getopt_loop fuel opts args shortopts longopts = Some r.
Proof.
  induction fuel as [|fuel IH]; intros opts args Hlen; [lia|].
  simpl. destruct args as [|a args']; [eauto|].
  destruct (_ && _); [|eauto].
  destruct (String.eqb a "--"); [eauto|].
  simpl in Hlen.
  destruct (PyStr.startswith a "--").
  - destruct (Getopt.do_longs _ _ _ _) as [e|[opts' rest]] eqn:E; [eauto|].
    apply IH. apply do_longs_consumes in E. lia.
  - destruct (Getopt.do_shorts _ _ _ _) as [e|[opts' rest]] eqn:E; [eauto|].
    apply IH. apply do_shorts_consumes in E. lia.
Qed.

Lemma getopt_total args shortopts longopts :
  exists r, Getopt.getopt args shortopts longopts = Some r.
Proof. apply getopt_loop_total. lia. Qed.

Lemma getopt_loop_raises shortopts longopts fuel : forall opts args e,
  Getopt.getopt_loop fuel opts args shortopts longopts = Some (inl e) ->
  exists msg, e = GetoptError msg.
Proof.
  induction fuel as [|fuel IH]; intros opts args e; simpl; [discriminate|].
  destruct args as [|a args']; [discriminate|].
  destruct (_ && _); [|discriminate].
  destruct (String.eqb a "--"); [discriminate|].
  destruct (PyStr.startswith a "--").
  - destruct (Getopt.do_longs _ _ _ _) as [e'|[opts' rest]] eqn:E.
    + intros H; inversion H; subst. eapply do_longs_raises; eauto.
    + apply IH.
  - destruct (Getopt.do_shorts _ _ _ _) as [e'|[opts' rest]] eqn:E.
    + intros H; inversion H; subst. eapply do_shorts_raises; eauto.
    + apply IH.
Qed.

Lemma getopt_raises args shortopts longopts e :
  Getopt.getopt args shortopts longopts = Some (inl e) ->
  exists msg, e = GetoptError msg.
Proof. apply getopt_loop_raises. Qed.

End GetoptFacts.

(** ** Unfolding the monad *)

Ltac munfold :=
  unfold mbind, M_bind, mret, M_ret, bind, ret, raise, running, lift,
    try_except, get_env, get_world, modify, emit, sys_exit,
    sys_stdout_write, sys_stderr_write in *.

Section Rejection.

Variables (fuel : nat) (env : Env) (b : gmap string (list Partition)).

Lemma run_getopt_error msg :
  kafcat_getopt (sys_argv_tail env) = Some (inl (GetoptError msg)) ->
  run fuel env b =
    (Raise (SystemExit 1),
     set_events (fun _ => [EvStderr ("Error: " +:+ msg +:+ nl);
                           EvStdout (usage_text (basename (sys_argv0 env)))])
                (init_world b)).
Proof.
  intros H. unfold run, main, parse_options, usage, kafcat_getopt in *.
  munfold. rewrite H. reflexivity.
Qed.

Lemma run_bad_arity opts positional :
  kafcat_getopt (sys_argv_tail env) = Some (inr (opts, positional)) ->
  length positional ≠ 1 ->
  run fuel env b =
    (Raise (SystemExit 1),
     set_events (fun _ => [EvStdout (usage_text (basename (sys_argv0 env)))])
                (init_world b)).
Proof.
  intros H Hlen. unfold run, main, parse_options, usage, kafcat_getopt in *.
  munfold. rewrite H. simpl.
  rewrite bool_decide_eq_true_2 by done. reflexivity.
Qed.

Lemma run_accepted opts topic :
  accepted (sys_argv_tail env) opts topic ->
  run fuel env b =
    try_except (try_block fuel (dict opts) [topic])
      (fun exc =>
         match exc with
         | KeyboardInterrupt => Some on_interrupt
         | _ => None
         end) env (init_world b).
Proof.
  intros H. unfold accepted, run, main, parse_options, kafcat_getopt in *.
  munfold. rewrite H. reflexivity.
Qed.

Lemma run_bad_port opts topic e :
  accepted (sys_argv_tail env) opts topic ->
  py_int (port_text opts) = inl e ->
  run fuel env b = (Raise e, init_world b).
Proof.
  intros H Hp. rewrite (run_accepted _ _ H).
  assert (exists l, e = ValueError l) as [l ->].
  { revert Hp. unfold py_int. destruct (PyStr.strip _) as [|[[] [] [] [] [] [] [] []] ?];
      simpl; repeat (match goal with |- context [match ?x with _ => _ end] => destruct x end);
      intros Hp; inversion Hp; eauto. }
  unfold try_block, port_text in *. munfold. rewrite Hp. reflexivity.
Qed.

End Rejection.

(** ** Facts about the broker model *)
Section KafkaFacts.

Implicit Types (parts : list Partition) (offs : list nat)
  (b : gmap string (list Partition)).

Lemma deliver_no_partitions new : Kafka.deliver new [] = [].
Proof. induction new as [|pm new IH]; [done|]. simpl. apply IH. Qed.

Lemma length_deliver new : forall parts,
  length (Kafka.deliver new parts) = length parts.
Proof.
  induction new as [|pm new IH]; intros parts; [done|].
  simpl. rewrite IH. unfold Kafka.append_message. apply length_alter.
Qed.

Lemma committed_append parts pm :
  map p_committed (Kafka.append_message parts pm) = map p_committed parts.
Proof.
  unfold Kafka.append_message. destruct pm as [i m]. simpl.
  revert i. induction parts as [|p parts IH]; intros [|i]; simpl; f_equal; auto.
  apply IH.
Qed.

Lemma committed_deliver new : forall parts,
  map p_committed (Kafka.deliver new parts) = map p_committed parts.
Proof.
  induction new as [|pm new IH]; intros parts; [done|].
  simpl. rewrite IH. apply committed_append.
Qed.

Lemma partitions_alter (f : list Partition -> list Partition) b topic :
  f [] = [] ->
  partitions (alter f topic b) topic = f (partitions b topic).
Proof.
  intros Hf. unfold partitions. rewrite lookup_alter_eq.
  destruct (b !! topic); simpl; auto.
Qed.

Lemma length_store_offsets parts : forall offs,
  length (Kafka.store_offsets parts offs) = length parts.
Proof.
  induction parts as [|p parts IH]; intros [|o offs]; simpl; auto.
Qed.

Lemma committed_store_offsets parts : forall offs,
  length offs = length parts ->
  map p_committed (Kafka.store_offsets parts offs) = offs.
Proof.
  induction parts as [|p parts IH]; intros [|o offs]; simpl; intros H;
    try discriminate; auto.
  f_equal. apply IH. lia.
Qed.

Lemma earliest_store_offsets parts : forall offs,
  map p_start (Kafka.store_offsets parts offs) = map p_start parts.
Proof.
  induction parts as [|p parts IH]; intros [|o offs]; simpl; f_equal; auto.
Qed.

Lemma first_available_store_offsets parts : forall i offs offs',
  Kafka.first_available i (Kafka.store_offsets parts offs') offs =
  Kafka.first_available i parts offs.
Proof.
  induction parts as [|p parts IH]; intros i offs [|o' offs']; simpl; auto.
  destruct offs as [|o offs]; [done|].
  unfold Kafka.fetch. simpl.
  destruct (p_start p <=? o); [destruct (p_log p !! _)|]; auto.
Qed.

Lemma length_advance ms : forall offs, length (advance offs ms) = length offs.
Proof.
  induction ms as [|[[i o] m] ms IH]; intros offs; [done|].
  unfold advance in *. simpl. rewrite IH. apply length_insert.
Qed.

Lemma advance_app offs ms1 ms2 :
  advance offs (ms1 ++ ms2) = advance (advance offs ms1) ms2.
Proof. unfold advance. apply fold_left_app. Qed.

End KafkaFacts.

(** ** The loop *)
Section Loop.

Variable env : Env.

(** One round of the iterator, started as a statement of the [try] block. *)
Lemma next_round w topic offs timeout :
  consumer w = Some (mkConsumer topic offs timeout) ->
  interruptible Kafka.next env w =
    if bool_decide (interrupt_at env = Some (clock w))
    then (Raise KeyboardInterrupt, set_clock (S (clock w)) w)
    else
      let b' := alter (Kafka.deliver (produced env (polls w))) topic (broker w) in
      let w1 := set_polls (S (polls w)) (set_broker b' (set_clock (S (clock w)) w)) in
      match Kafka.first_available 0 (partitions b' topic) offs with
      | Some (i, o, m) =>
          (Ok (Kafka.Message m),
           set_events (fun evs => evs ++ [EvFetched i o m])
             (set_consumer (Some (mkConsumer topic (<[i := S o]> offs) timeout)) w1))
      | None =>
          (Ok (if timeout is Some _ then Kafka.StopIteration else Kafka.NothingYet), w1)
      end.
Proof.
  intros Hc. unfold interruptible, Kafka.next, Kafka.set_offsets, Kafka.self.
  munfold. case_bool_decide; [done|]. simpl. rewrite Hc. simpl.
  destruct (Kafka.first_available _ _ _) as [[[i o] m]|]; simpl.
  - rewrite Hc. reflexivity.
  - destruct timeout; reflexivity.
Qed.

Lemma print_round w m :
  print_message m env w =
    if bool_decide (interrupt_at env = Some (clock w))
    then (Raise KeyboardInterrupt, set_clock (S (clock w)) w)
    else (Ok tt, set_events (fun evs => evs ++ [EvStdout (m +:+ nl)])
                   (set_clock (S (clock w)) w)).
Proof.
  unfold print_message, interruptible. munfold.
  case_bool_decide; reflexivity.
Qed.

(** What the loop leaves behind, however it ends. *)
Lemma for_in_consumer_spec topic timeout fuel : forall w offs,
  consumer w = Some (mkConsumer topic offs timeout) ->
  exists ending fetched w',
    for_in_consumer fuel print_message env w = (result_of ending, w') /\
    events w' =
      events w ++ loop_trace fetched ++ fetch_events (unwritten ending) /\
    consumer w' =
      Some (mkConsumer topic (advance offs (fetched ++ unwritten ending)) timeout) /\
    committed (broker w') topic = committed (broker w) topic /\
    length (partitions (broker w') topic) = length (partitions (broker w) topic) /\
    clock w <= clock w' /\
    match ending with
    | Exhausted =>
        Kafka.first_available 0 (partitions (broker w') topic)
          (advance offs fetched) = None /\
        is_Some timeout /\ undisturbed env (clock w) (clock w')
    | StillRunning => undisturbed env (clock w) (clock w')
    | _ => interrupt_at env = Some (pred (clock w')) /\ clock w < clock w'
    end.
Proof.
  induction fuel as [|fuel IH]; intros w offs Hc.
  { exists StillRunning, [], w. simpl. rewrite !app_nil_r.
    repeat split; auto. intros k _ ?. lia. }
  simpl. unfold mbind, M_bind, bind at 1.
  rewrite (next_round _ _ _ _ Hc).
  case_bool_decide as Hi.
  { exists InterruptedWaiting, [], (set_clock (S (clock w)) w). simpl.
    rewrite !app_nil_r. repeat split; auto; lia. }
  set (b' := alter _ topic (broker w)).
  assert (Hcom : committed b' topic = committed (broker w) topic).
  { unfold committed, b'. rewrite partitions_alter by apply deliver_no_partitions.
    apply committed_deliver. }
  assert (Hlen : length (partitions b' topic) = length (partitions (broker w) topic)).
  { unfold b'. rewrite partitions_alter by apply deliver_no_partitions.
    apply length_deliver. }
  simpl.
  destruct (Kafka.first_available 0 (partitions b' topic) offs)
    as [[[i o] m]|] eqn:Hav.
  - (* a message is handed over *)
    unfold bind at 1. rewrite print_round. simpl.
    case_bool_decide as Hi2.
    + exists (InterruptedWriting i o m), [], 
        (set_clock (S (S (clock w)))
           (set_events (fun evs => evs ++ [EvFetched i o m])
              (set_consumer (Some (mkConsumer topic (<[i := S o]> offs) timeout))
                 (set_polls (S (polls w)) (set_broker b' (set_clock (S (clock w)) w)))))).
      simpl. repeat split; auto; lia.
    + match goal with |- context [for_in_consumer fuel _ env ?w2] =>
        destruct (IH w2 (<[i := S o]> offs) eq_refl)
          as (ending & fetched & w' & Hrun & Hev & Hcons & Hcom' & Hlen' & Hclk & Hend)
      end.
      simpl in *.
      exists ending, ((i, o, m) :: fetched), w'.
      rewrite Hrun. split; [done|].
      split. { rewrite Hev. simpl. rewrite <- !app_assoc. reflexivity. }
      split; [exact Hcons|].
      split; [congruence|]. split; [congruence|]. split; [lia|].
      destruct ending; simpl in *.
      * destruct Hend as (? & ? & Hu). repeat split; auto.
        intros k Hk Hle. apply Hu; auto.
        assert (k ≠ clock w) by congruence.
        assert (k ≠ S (clock w)) by congruence. lia.
      * intros k Hk Hle. apply Hend; auto.
        assert (k ≠ clock w) by congruence.
        assert (k ≠ S (clock w)) by congruence. lia.
      * destruct Hend; split; auto; lia.
      * destruct Hend; split; auto; lia.
  - (* nothing to hand over *)
    destruct timeout as [t|]; simpl.
    + exists Exhausted, [],
        (set_polls (S (polls w)) (set_broker b' (set_clock (S (clock w)) w))).
      simpl. rewrite !app_nil_r. repeat split; eauto.
      intros k Hk Hle. assert (k ≠ clock w) by congruence. lia.
    + match goal with |- context [for_in_consumer fuel _ env ?w2] =>
        destruct (IH w2 offs Hc)
          as (ending & fetched & w' & Hrun & Hev & Hcons & Hcom' & Hlen' & Hclk & Hend)
      end.
      simpl in *.
      exists ending, fetched, w'. rewrite Hrun.
      repeat split; auto; try congruence; try lia.
      destruct ending; simpl in *.
      * destruct Hend as (? & ? & Hu). repeat split; auto.
        intros k Hk Hle. apply Hu; auto.
        assert (k ≠ clock w) by congruence. lia.
      * intros k Hk Hle. apply Hend; auto.
        assert (k ≠ clock w) by congruence. lia.
      * destruct Hend; split; auto; lia.
      * destruct Hend; split; auto; lia.
Qed.

End Loop.

(** ** From the loop to the end of the run *)
Section Stream.

Variable env : Env.

Lemma commit_eq w topic offs timeout :
  consumer w = Some (mkConsumer topic offs timeout) ->
  Kafka.commit env w = (Ok tt, stored topic offs w).
Proof.
  intros Hc. unfold Kafka.commit, Kafka.self. munfold. rewrite Hc. reflexivity.
Qed.

Lemma on_interrupt_unbound w :
  consumer w = None -> on_interrupt env w = (Raise (SystemExit 130), w).
Proof. intros Hc. unfold on_interrupt. munfold. rewrite Hc. reflexivity. Qed.

Lemma on_interrupt_bound w topic offs timeout :
  consumer w = Some (mkConsumer topic offs timeout) ->
  on_interrupt env w = (Raise (SystemExit 130), stored topic offs w).
Proof.
  intros Hc. unfold on_interrupt. munfold. rewrite Hc.
  rewrite (commit_eq _ _ _ _ Hc). reflexivity.
Qed.

Lemma committed_stored w topic offs :
  length offs = length (partitions (broker w) topic) ->
  committed (broker (stored topic offs w)) topic = offs.
Proof.
  intros Hlen. unfold committed, stored. simpl.
  rewrite partitions_alter by done. by apply committed_store_offsets.
Qed.

Lemma available_stored w topic offs offs' :
  Kafka.first_available 0 (partitions (broker (stored topic offs' w)) topic) offs =
  Kafka.first_available 0 (partitions (broker w) topic) offs.
Proof.
  unfold stored. simpl. rewrite partitions_alter by done.
  apply first_available_store_offsets.
Qed.

Lemma stream_spec fuel w topic offs timeout :
  consumer w = Some (mkConsumer topic offs timeout) ->
  length offs = length (partitions (broker w) topic) ->
  exists r w', stream fuel env w = (r, w') /\
               streamed env w topic offs timeout r w'.
Proof.
  intros Hc Hlen.
  destruct (for_in_consumer_spec env topic timeout fuel w offs Hc)
    as (ending & fetched & w1 & Hrun & Hev & Hcons & Hcom & Hparts & Hclk & Hend).
  unfold stream, try_except. unfold mbind, M_bind, bind. rewrite Hrun.
  assert (Hlen1 : length (advance offs (fetched ++ unwritten ending)) =
                  length (partitions (broker w1) topic)).
  { rewrite length_advance. congruence. }
  destruct ending; simpl in *; rewrite ?app_nil_r in *.
  - (* the iterator stopped: the last commit *)
    destruct Hend as (Hav & Hto & Hu).
    unfold interruptible. case_bool_decide as Hi.
    + simpl. eexists _, _. split.
      { eapply on_interrupt_bound. simpl. exact Hcons. }
      apply (streamed_interrupted _ _ _ _ _ fetched []); simpl;
        rewrite ?app_nil_r; auto.
      * by rewrite Hev, <- app_assoc.
      * by apply committed_stored.
      * lia.
    + erewrite commit_eq by (simpl; exact Hcons).
      eexists _, _. split; [reflexivity|].
      apply (streamed_completed _ _ _ _ _ fetched); simpl; auto.
      * by rewrite Hev, <- app_assoc.
      * by apply committed_stored.
      * rewrite <- Hav. apply (available_stored (set_clock (S (clock w1)) w1)).
      * intros k Hk Hle. assert (k ≠ clock w1) by congruence.
        specialize (Hu k Hk Hle). lia.
  - eexists _, _. split; [reflexivity|].
    by apply (streamed_running _ _ _ _ _ fetched).
  - destruct Hend as [Hi Hlt].
    eexists _, _. split; [by eapply on_interrupt_bound|].
    apply (streamed_interrupted _ _ _ _ _ fetched []); simpl;
      rewrite ?app_nil_r; auto.
    + by rewrite Hev, <- app_assoc.
    + by apply committed_stored.
  - destruct Hend as [Hi Hlt].
    eexists _, _. split; [by eapply on_interrupt_bound|].
    apply (streamed_interrupted _ _ _ _ _ fetched [(partition, offset, payload)]);
      simpl; auto.
    + by rewrite Hev, <- !app_assoc.
    + by apply committed_stored.
Qed.

End Stream.

(** ** The run of an accepted command line *)
Section Accepted.

Variables (fuel : nat) (env : Env) (b : gmap string (list Partition)).
Variables (opts : list (string * string)) (topic : string) (port : Z).
Hypothesis Hacc : accepted (sys_argv_tail env) opts topic.
Hypothesis Hport : py_int (port_text opts) = inr port.

Lemma seek_earliest_offsets (parts : list Partition) :
  map (fun p => Z.to_nat (Z.of_nat (p_start p) + 0)) parts = map p_start parts.
Proof. apply map_ext. intros p. lia. Qed.

(** The statements before the loop, one case per instant at which the
    interrupt, or the broker's failure, can cut them short. *)
Lemma run_eq :
  let addr := hostport opts port in
  let timeout := iter_timeout_of opts in
  run fuel env b =
    if bool_decide (interrupt_at env = Some 0)
    then (Raise (SystemExit 130), set_clock 1 (init_world b))
    else if broker_up env then
      if bool_decide (interrupt_at env = Some 1)
      then (Raise (SystemExit 130), set_clock 2 (w_connected b addr))
      else if bool_decide (b !! topic = None)
      then (Raise UnknownTopicOrPartitionError, w_declined b addr topic timeout)
      else if dict_in "-b" (dict opts) then
        if bool_decide (interrupt_at env = Some 2)
        then (Raise (SystemExit 130),
              stored topic (committed b topic)
                (set_clock 3 (w_bound b addr topic timeout)))
        else if bool_decide (interrupt_at env = Some 3)
        then (Raise (SystemExit 130),
              stored topic (earliest b topic)
                (set_clock 4 (w_sought b addr topic timeout)))
        else stream fuel env (w_reset b addr topic timeout)
      else stream fuel env (w_bound b addr topic timeout)
    else (Raise KafkaUnavailableError, w_connected b addr).
Proof.
  intros addr timeout. rewrite (run_accepted _ _ _ _ _ Hacc).
  unfold try_block, port_text in *. unfold try_except at 1.
  unfold mbind, M_bind. unfold bind at 1. unfold lift. rewrite Hport.
  unfold ret at 1. unfold bind at 1.
  unfold interruptible at 1. simpl clock.
  case_bool_decide as H0.
  { rewrite on_interrupt_unbound by done. reflexivity. }
  unfold Kafka.KafkaClient. munfold. simpl.
  destruct (broker_up env); [|reflexivity].
  unfold interruptible at 1. simpl.
  case_bool_decide as H1.
  { rewrite on_interrupt_unbound by done. reflexivity. }
  fold (iter_timeout_of opts). fold timeout. fold (hostport opts port). fold addr.
  unfold Kafka.SimpleConsumer. munfold. cbn [events broker set_events set_clock].
  case_bool_decide as Hb.
  { simpl. rewrite Hb. reflexivity. }
  assert (b !! topic = Some (partitions b topic)) as Hparts.
  { unfold partitions. destruct (b !! topic); [done|congruence]. }
  simpl. rewrite Hparts.
  destruct (dict_in "-b" (dict opts)).
  - unfold interruptible at 1. simpl.
    case_bool_decide as H2.
    { erewrite on_interrupt_bound by (simpl; reflexivity). reflexivity. }
    unfold Kafka.seek, Kafka.self, Kafka.set_offsets. munfold. simpl.
    rewrite seek_earliest_offsets.
    unfold interruptible at 1. simpl.
    case_bool_decide as H3.
    { erewrite on_interrupt_bound by (simpl; reflexivity). reflexivity. }
    erewrite commit_eq by (simpl; reflexivity).
    reflexivity.
  - reflexivity.
Qed.

End Accepted.

(** ** Facts about [dict] *)
Section DictFacts.

Lemma dict_snoc opts kv : dict (opts ++ [kv]) = <[kv.1 := kv.2]> (dict opts).
Proof. unfold dict. rewrite fold_left_app. reflexivity. Qed.

Lemma last_value_snoc key opts kv :
  last_value key (opts ++ [kv]) =
    if String.eqb kv.1 key then Some kv.2 else last_value key opts.
Proof.
  unfold last_value. rewrite List.filter_app. simpl.
  destruct (String.eqb kv.1 key).
  - rewrite fmap_app. simpl. apply last_snoc.
  - rewrite app_nil_r. reflexivity.
Qed.

(** Looking a key up in [dict opts] finds its last occurrence in [opts]. *)
Lemma dict_lookup key opts : dict opts !! key = last_value key opts.
Proof.
  induction opts as [|kv opts IH] using rev_ind; [done|].
  rewrite dict_snoc, last_value_snoc.
  destruct (String.eqb kv.1 key) eqn:E.
  - apply String.eqb_eq in E. subst. apply lookup_insert_eq.
  - apply String.eqb_neq in E. rewrite lookup_insert_ne by done. exact IH.
Qed.

Lemma dict_get_last key dflt opts :
  dict_get (dict opts) key dflt = default dflt (last_value key opts).
Proof. unfold dict_get. by rewrite dict_lookup. Qed.

Lemma dict_in_given key opts :
  dict_in key (dict opts) = true <-> given key opts.
Proof.
  unfold dict_in, given. rewrite bool_decide_eq_true.
  induction opts as [|kv opts IH] using rev_ind.
  - unfold dict. simpl. rewrite lookup_empty. split.
    + intros [? ?]; discriminate.
    + intros H. by apply not_elem_of_nil in H.
  - rewrite dict_snoc, fmap_app, elem_of_app. simpl.
    rewrite list_elem_of_singleton.
    destruct (decide (kv.1 = key)) as [->|Hne].
    + rewrite lookup_insert_eq. split; eauto.
    + rewrite lookup_insert_ne by done. rewrite IH.
      split; [auto|]. intros [?|?]; [done|]. congruence.
Qed.

Lemma dict_in_not_given key opts :
  dict_in key (dict opts) = false <-> ¬ given key opts.
Proof.
  rewrite <- dict_in_given. destruct (dict_in key (dict opts)); split; done.
Qed.

End DictFacts.

Section Cases.

Variables (fuel : nat) (env : Env) (b : gmap string (list Partition)).
Variables (opts : list (string * string)) (topic : string) (port : Z).
Hypothesis Hacc : accepted (sys_argv_tail env) opts topic.
Hypothesis Hport : py_int (port_text opts) = inr port.

Lemma run_stream_start :
  broker_up env = true ->
  undisturbed env 0 (clock (w_start b opts topic port)) ->
  is_Some (b !! topic) ->
  run fuel env b = stream fuel env (w_start b opts topic port).
Proof.
  intros Hup Hu Hknown. rewrite (run_eq _ _ _ _ _ _ Hacc Hport). simpl.
  unfold w_start in *. rewrite Hup.
  rewrite (bool_decide_eq_false_2 (b !! topic = None))
    by (intros Hnone; rewrite Hnone in Hknown; by destruct Hknown).
  assert (forall k, k < clock (if dict_in "-b" (dict opts)
            then w_reset b (hostport opts port) topic (iter_timeout_of opts)
            else w_bound b (hostport opts port) topic (iter_timeout_of opts)) ->
          bool_decide (interrupt_at env = Some k) = false) as Hno.
  { intros k Hk. apply bool_decide_eq_false. intros Hi.
    specialize (Hu k Hi). lia. }
  destruct (dict_in "-b" (dict opts)); simpl in Hno;
    rewrite ?Hno by lia; reflexivity.
Qed.

Lemma run_cases :
  exists r w, run fuel env b = (r, w) /\ run_case env b opts topic port r w.
Proof.
  rewrite (run_eq _ _ _ _ _ _ Hacc Hport). simpl.
  case_bool_decide as H0; [eexists _, _; split; [done|by constructor]|].
  destruct (broker_up env) eqn:Hup;
    [|eexists _, _; split; [done|by constructor]].
  case_bool_decide as H1; [eexists _, _; split; [done|by constructor]|].
  case_bool_decide as Hknown; [eexists _, _; split; [done|by constructor]|].
  apply not_eq_None_Some in Hknown.
  destruct (dict_in "-b" (dict opts)) eqn:Hb.
  - case_bool_decide as H2; [eexists _, _; split; [done|by constructor]|].
    case_bool_decide as H3; [eexists _, _; split; [done|by constructor]|].
    destruct (stream_spec env fuel (w_reset b (hostport opts port) topic
                (iter_timeout_of opts)) topic (earliest b topic)
                (iter_timeout_of opts)) as (r & w & Hrun & Hs).
    { reflexivity. }
    { unfold w_reset, stored, earliest. simpl.
      rewrite partitions_alter by done.
      by rewrite length_store_offsets, length_map. }
    exists r, w. split; [done|]. apply case_streamed; auto.
    + unfold w_start. rewrite Hb. simpl. intros k Hk _.
      assert (k ≠ 0 /\ k ≠ 1 /\ k ≠ 2 /\ k ≠ 3) by (repeat split; congruence).
      lia.
    + unfold w_start, start_offsets. by rewrite Hb.
  - destruct (stream_spec env fuel (w_bound b (hostport opts port) topic
                (iter_timeout_of opts)) topic (committed b topic)
                (iter_timeout_of opts)) as (r & w & Hrun & Hs).
    { reflexivity. }
    { unfold committed. simpl. by rewrite length_map. }
    exists r, w. split; [done|]. apply case_streamed; auto.
    + unfold w_start. rewrite Hb. simpl. intros k Hk _.
      assert (k ≠ 0 /\ k ≠ 1) by (split; congruence). lia.
    + unfold w_start, start_offsets. by rewrite Hb.
Qed.

End Cases.

(** ** Facts about event lists *)
Section EventFacts.

Lemma append_empty_r (t : string) : t +:+ "" = t.
Proof.
  induction t as [|c t IH]; [done|].
  change (String c (t +:+ "") = String c t). by rewrite IH.
Qed.

Lemma stdout_writes_app evs1 evs2 :
  stdout_writes (evs1 ++ evs2) = stdout_writes evs1 ++ stdout_writes evs2.
Proof. apply omap_app. Qed.

Lemma fetched_payloads_app evs1 evs2 :
  fetched_payloads (evs1 ++ evs2) = fetched_payloads evs1 ++ fetched_payloads evs2.
Proof. apply omap_app. Qed.

Lemma stdout_writes_loop ms :
  stdout_writes (loop_trace ms) = map (fun x => x.2 +:+ nl) ms.
Proof.
  induction ms as [|[[i o] m] ms IH]; [done|].
  change ((m +:+ nl) :: stdout_writes (loop_trace ms) =
          (m +:+ nl) :: map (fun x => x.2 +:+ nl) ms).
  by rewrite IH.
Qed.

Lemma fetched_payloads_loop ms :
  fetched_payloads (loop_trace ms) = map snd ms.
Proof.
  induction ms as [|[[i o] m] ms IH]; [done|].
  change (m :: fetched_payloads (loop_trace ms) = m :: map snd ms).
  by rewrite IH.
Qed.

Lemma stdout_writes_fetch ms : stdout_writes (fetch_events ms) = [].
Proof. induction ms as [|[[i o] m] ms IH]; [done|]. exact IH. Qed.

Lemma fetched_payloads_fetch ms :
  fetched_payloads (fetch_events ms) = map snd ms.
Proof.
  induction ms as [|[[i o] m] ms IH]; [done|].
  change (m :: fetched_payloads (fetch_events ms) = m :: map snd ms).
  by rewrite IH.
Qed.

Lemma stdout_of_one t : stdout_of [EvStdout t] = t.
Proof. unfold stdout_of. simpl. apply append_empty_r. Qed.

Lemma stdout_of_error_one e t : stdout_of [EvStderr e; EvStdout t] = t.
Proof. unfold stdout_of. simpl. apply append_empty_r. Qed.

(** The loop produces nothing but fetches and writes to standard output. *)
Lemma loop_trace_Forall (P : event -> Prop) ms :
  (forall i o m, P (EvFetched i o m)) ->
  (forall text, P (EvStdout text)) ->
  Forall P (loop_trace ms).
Proof.
  intros Hf Hs. induction ms as [|[[i o] m] ms IH]; simpl; auto.
Qed.

Lemma fetch_events_Forall (P : event -> Prop) ms :
  (forall i o m, P (EvFetched i o m)) -> Forall P (fetch_events ms).
Proof.
  intros Hf. induction ms as [|[[i o] m] ms IH]; simpl; auto.
Qed.

End EventFacts.

(** ** Command lines the script turns down *)

(** What a malformed command line leads to. *)
Lemma malformed_run (fuel : nat) (env : Env) (b : gmap string (list Partition)) :
  malformed (sys_argv_tail env) ->
  (run fuel env b).1 = Raise (SystemExit 1) /\
  stdout_of (events (run fuel env b).2) = usage_text (basename (sys_argv0 env)) /\
  Forall (fun ev => ¬ is_kafka_call ev) (events (run fuel env b).2).
Proof.
  intros [[msg H]|(opts & positional & H & Hlen)].
  - rewrite (run_getopt_error _ _ _ _ H).
    cbn [fst snd events set_events init_world]. rewrite stdout_of_error_one.
    repeat split; auto; repeat constructor; simpl; auto.
  - rewrite (run_bad_arity _ _ _ _ _ H Hlen).
    cbn [fst snd events set_events init_world]. rewrite stdout_of_one.
    repeat split; auto; repeat constructor; simpl; auto.
Qed.

(** C6: for every malformed argument vector (one on which [getopt] raises,
    such as an unknown flag or an option without its value, or one whose
    number of positional arguments is not one) the program writes the usage
    message to standard output, calls nothing of the Kafka client, and exits
    with status 1. *)
Theorem malformed_prints_usage_exits_1 (fuel : nat) (env : Env)
    (b : gmap string (list Partition)) :
  malformed (sys_argv_tail env) ->
  let rw := run fuel env b in
  rw.1 = Raise (SystemExit 1) /\
  exit_status rw.1 = Some 1%Z /\
  stdout_of (events rw.2) = usage_text (basename (sys_argv0 env)) /\
  Forall (fun ev => ¬ is_kafka_call ev) (events rw.2).
Proof.
  intros Hm. destruct (malformed_run fuel env b Hm) as (Hr & Hu & Hk).
  simpl. rewrite Hr. repeat split; auto.
Qed.

Lemma malformed_prints_usage_exits_1_witness :
  malformed ["-x"; "orders"] /\
  exit_status (run 5 (scenario ["-x"; "orders"] None) orders_broker).1 = Some 1%Z /\
  stdout_of (events (run 5 (scenario ["-x"; "orders"] None) orders_broker).2) =
    usage_text "kafcat".
Proof.
  assert (H : malformed (sys_argv_tail (scenario ["-x"; "orders"] None))).
  { left. eexists. vm_compute. reflexivity. }
  split; [exact H|].
  destruct (malformed_prints_usage_exits_1 5 (scenario ["-x"; "orders"] None)
              orders_broker H) as (_ & Hs & Hu & _).
  split; [exact Hs | exact Hu].
Defined.

(** Every command line is either accepted or malformed. *)
Lemma accepted_or_malformed args :
  (exists opts topic, accepted args opts topic) \/ malformed args.
Proof.
  unfold accepted, malformed.
  destruct (getopt_total args "bf" ["host="; "port="]) as [[e|[opts pos]] H].
  - destruct (getopt_raises _ _ _ _ H) as [msg ->]. right. left. eauto.
  - destruct pos as [|t [|t' pos]].
    + right. right. exists opts, []. split; [done|]. simpl. lia.
    + left. eauto.
    + right. right. exists opts, (t :: t' :: pos). split; [done|]. simpl. lia.
Qed.

(** An unknown one-letter flag in front makes the command line malformed. *)
Lemma unknown_short_flag_malformed (c : ascii) (cluster : string)
    (rest : list string) :
  c ≠ "b"%char -> c ≠ "f"%char -> c ≠ "-"%char ->
  malformed (String "-" (String c cluster) :: rest).
Proof.
  intros Hb Hf Hd. left.
  exists ("option -" +:+ String c "" +:+ " not recognized").
  unfold kafcat_getopt, Getopt.getopt.
  destruct c as [[] [] [] [] [] [] [] []]; try congruence; reflexivity.
Qed.

(** A second positional argument makes the command line malformed. *)
Lemma extra_positional_malformed (t1 t2 : string) (rest : list string) :
  PyStr.startswith t1 "-" = false -> malformed (t1 :: t2 :: rest).
Proof.
  intros H. right. exists [], (t1 :: t2 :: rest). split; [|simpl; lia].
  unfold kafcat_getopt, Getopt.getopt. simpl. rewrite H. reflexivity.
Qed.

(** No positional argument, or an option without its value. *)
Example missing_topic_malformed : malformed ["-b"; "-f"].
Proof. right. exists [("-b", ""); ("-f", "")], []. by vm_compute. Qed.

Example missing_value_malformed : malformed ["--host"].
Proof. left. eexists. vm_compute. reflexivity. Qed.

(** C7: for every invalid argument vector (malformed, or with a [--port]
    value that is not an integer, as in [--port abc]) the program exits with
    status 1 and never opens a connection to the broker: it makes no call
    to the Kafka client at all. *)
Theorem invalid_exits_1_without_connecting (fuel : nat) (env : Env)
    (b : gmap string (list Partition)) :
  invalid (sys_argv_tail env) ->
  let rw := run fuel env b in
  exit_status rw.1 = Some 1%Z /\
  Forall (fun ev => ¬ is_connect ev) (events rw.2) /\
  Forall (fun ev => ¬ is_kafka_call ev) (events rw.2).
Proof.
  intros [Hm|(opts & topic & e & Hacc & Hp)].
  - destruct (malformed_run fuel env b Hm) as (Hr & _ & Hk).
    simpl. rewrite Hr. repeat split; auto.
    eapply Forall_impl; [exact Hk|]. intros [] ?; simpl in *; auto.
  - simpl. rewrite (run_bad_port _ _ _ _ _ _ Hacc Hp). simpl.
    repeat split; auto.
    revert Hp. unfold py_int.
    destruct (PyStr.strip _) as [|[[] [] [] [] [] [] [] []] ?];
      simpl; repeat (match goal with |- context [match ?x with _ => _ end] => destruct x end);
      intros Hp; inversion Hp; reflexivity.
Qed.

Lemma invalid_exits_1_without_connecting_witness :
  invalid ["--port"; "abc"; "orders"] /\
  invalid ["orders"; "payments"] /\
  exit_status (run 5 (scenario ["--port"; "abc"; "orders"] None) orders_broker).1
    = Some 1%Z /\
  events (run 5 (scenario ["--port"; "abc"; "orders"] None) orders_broker).2 = [].
Proof.
  assert (H : invalid (sys_argv_tail (scenario ["--port"; "abc"; "orders"] None))).
  { right. exists [("--port", "abc")], "orders", (ValueError "abc").
    split; vm_compute; reflexivity. }
  split; [exact H|].
  split. { left. by apply extra_positional_malformed. }
  destruct (invalid_exits_1_without_connecting 5
              (scenario ["--port"; "abc"; "orders"] None) orders_broker H)
    as (Hs & _ & _).
  split; [exact Hs|]. vm_compute. reflexivity.
Defined.

(** ** Runs of accepted command lines *)

Section Shape.

Variables (env : Env) (b : gmap string (list Partition)).
Variables (opts : list (string * string)) (topic : string) (port : Z).

Lemma events_w_start :
  events (w_start b opts topic port) =
    [EvConnect (hostport opts port);
     EvConsumer "kafcat" topic (iter_timeout_of opts)] ++
    (if dict_in "-b" (dict opts)
     then [EvSeek 0 0; EvCommit (earliest b topic)] else []).
Proof. unfold w_start. destruct (dict_in "-b" (dict opts)); reflexivity. Qed.

Lemma clock_w_start : 2 <= clock (w_start b opts topic port).
Proof. unfold w_start. destruct (dict_in "-b" (dict opts)); simpl; lia. Qed.

(** The events of a run that reached the loop: the statements before the
    loop, the messages fetched and written, at most one message fetched
    and not written, and at most one commit. *)
Lemma streamed_events r w :
  streamed env (w_start b opts topic port) topic (start_offsets b opts topic)
    (iter_timeout_of opts) r w ->
  exists fetched pending tail,
    events w =
      events (w_start b opts topic port) ++ loop_trace fetched ++
      fetch_events pending ++ tail /\
    length pending <= 1 /\
    (pending ≠ [] -> r = Raise (SystemExit 130)) /\
    (tail = [] \/
     tail = [EvCommit (advance (start_offsets b opts topic) (fetched ++ pending))]).
Proof.
  intros Hs. inversion Hs; subst.
  - exists fetched, [], [EvCommit (advance (start_offsets b opts topic) fetched)].
    rewrite app_nil_r. simpl. repeat split; auto. done.
  - exists fetched, [], []. simpl. rewrite !app_nil_r. repeat split; auto. done.
  - exists fetched, pending,
      [EvCommit (advance (start_offsets b opts topic) (fetched ++ pending))].
    repeat split; auto.
Qed.

End Shape.

Section ListFacts.

(** In a list that ends with its only commit, nothing follows a commit. *)
Lemma commit_is_last (l tail pre post : list event) offs :
  Forall (fun ev => ¬ is_commit ev) l ->
  (tail = [] \/ exists o, tail = [EvCommit o]) ->
  l ++ tail = pre ++ EvCommit offs :: post ->
  post = [].
Proof.
  intros Hl Ht Heq.
  assert (Hno : forall l' post', Forall (fun ev => ¬ is_commit ev) l' ->
                           l' = pre ++ EvCommit offs :: post' -> False).
  { intros l' post' Hl' ->. apply Forall_app in Hl' as [_ Hl'].
    inversion Hl'; subst. simpl in *. auto. }
  destruct Ht as [->|[o ->]].
  - rewrite app_nil_r in Heq. destruct (Hno l post Hl Heq).
  - destruct post as [|x post] using rev_ind; [done|].
    exfalso. clear IHpost.
    change (pre ++ EvCommit offs :: post ++ [x])
      with (pre ++ (EvCommit offs :: post) ++ [x]) in Heq.
    rewrite app_assoc in Heq. apply app_inj_tail in Heq as [Heq _].
    exact (Hno l post Hl Heq).
Qed.

Lemma foldr_append_map (f : string -> string) (l : list string) :
  foldr String.append "" (map f l) = foldr (fun m out => f m +:+ out) "" l.
Proof. induction l as [|m l IH]; simpl; [done|by rewrite IH]. Qed.

End ListFacts.

(** Closing goals about which events a run can contain. *)
Ltac solve_events :=
  rewrite ?Forall_app; repeat split;
  try (apply loop_trace_Forall; simpl; auto);
  try (apply fetch_events_Forall; simpl; auto);
  repeat (constructor; simpl; auto).

(** C10: when [--host] or [--port] is given several times the program
    reports no error and connects to the address made of the value of the
    last [--host] and the value of the last [--port] (or their defaults). *)
Theorem repeated_option_last_wins (fuel : nat) (env : Env)
    (b : gmap string (list Partition)) (opts : list (string * string))
    (topic : string) (port : Z) :
  accepted (sys_argv_tail env) opts topic ->
  py_int (default "9092" (last_value "--port" opts)) = inr port ->
  interrupt_at env ≠ Some 0 ->
  let rw := run fuel env b in
  head (events rw.2) =
    Some (EvConnect (default "localhost" (last_value "--host" opts) +:+ ":" +:+
                     py_str port)) /\
  Forall (fun ev => ¬ is_stderr ev) (events rw.2) /\
  rw.1 ≠ Raise (SystemExit 1).
Proof.
  intros Hacc Hport Hi. rewrite <- dict_get_last in Hport.
  rewrite <- (dict_get_last "--host"). fold (hostport opts port).
  destruct (run_cases fuel env b opts topic port Hacc Hport) as (r & w & -> & Hc).
  simpl. inversion Hc; subst; simpl; try done;
    try (by repeat split; try done; solve_events).
  destruct (streamed_events _ _ _ _ _ _ _ H1)
      as (fetched & pending & tail & Hev & _ & _ & Htail).
  rewrite Hev, events_w_start. split; [done|]. split.
  - destruct (dict_in "-b" (dict opts)); destruct Htail as [->| ->];
      solve_events.
  - inversion H1; done.
Qed.

Lemma repeated_option_last_wins_witness :
  accepted ["--host"; "alpha"; "--port=1"; "--ho"; "beta"; "--port"; "2"; "orders"]
    [("--host", "alpha"); ("--port", "1"); ("--host", "beta"); ("--port", "2")]
    "orders" /\
  head (events (run 9
                  (scenario ["--host"; "alpha"; "--port=1"; "--ho"; "beta";
                             "--port"; "2"; "orders"] None)
                  orders_broker).2) = Some (EvConnect "beta:2").
Proof.
  assert (H : accepted
                (sys_argv_tail
                   (scenario ["--host"; "alpha"; "--port=1"; "--ho"; "beta";
                              "--port"; "2"; "orders"] None))
                [("--host", "alpha"); ("--port", "1"); ("--host", "beta");
                 ("--port", "2")] "orders").
  { vm_compute. reflexivity. }
  split; [exact H|].
  refine (proj1 (repeated_option_last_wins 9 _ orders_broker _ _ 2%Z H _ _)).
  - vm_compute. reflexivity.
  - simpl. discriminate.
Defined.

(** C4: a user interrupt that reaches the program inside its [try] block
    ends it at once with status 130; if the consumer had been constructed
    its current offsets are committed first, and if it had not nothing is
    committed. *)
Theorem interrupt_commits_then_exits_130 (fuel : nat) (env : Env)
    (b : gmap string (list Partition)) (k : nat) :
  interrupt_at env = Some k ->
  let rw := run fuel env b in
  k < clock rw.2 ->
  rw.1 = Raise (SystemExit 130) /\
  exit_status rw.1 = Some 130%Z /\
  clock rw.2 = S k /\
  match consumer rw.2 with
  | Some c =>
      2 <= k /\
      (exists before, events rw.2 = before ++ [EvCommit (c_offsets c)]) /\
      committed (broker rw.2) (c_topic c) = c_offsets c
  | None =>
      k < 2 /\ Forall (fun ev => ¬ is_commit ev) (events rw.2)
  end.
Proof.
  intros Hi. simpl.
  destruct (accepted_or_malformed (sys_argv_tail env))
    as [(opts & topic & Hacc)|[[msg H]|(opts & pos & H & Hlen)]].
  2: { rewrite (run_getopt_error _ _ _ _ H). simpl. lia. }
  2: { rewrite (run_bad_arity _ _ _ _ _ H Hlen). simpl. lia. }
  destruct (py_int (port_text opts)) as [e|port] eqn:Hport.
  { rewrite (run_bad_port _ _ _ _ _ _ Hacc Hport). simpl. lia. }
  destruct (run_cases fuel env b opts topic port Hacc Hport) as (r & w & -> & Hc).
  simpl. inversion Hc; subst; simpl.
  - intros _. assert (k = 0) as -> by congruence.
    repeat split; auto. 
  - intros Hk. assert (k = 0) as -> by lia. congruence.
  - intros _. assert (k = 1) as -> by congruence.
    repeat split; auto; solve_events.
  - intros _. assert (k = 2) as -> by congruence.
    repeat split; auto.
    + by exists [EvConnect (hostport opts port);
                 EvConsumer "kafcat" topic (iter_timeout_of opts)].
    + apply (committed_stored (set_clock 3 (w_bound b (hostport opts port) topic
                                              (iter_timeout_of opts)))).
      unfold committed. simpl. by rewrite length_map.
  - intros _. assert (k = 3) as -> by congruence.
    repeat split; auto.
    + by exists [EvConnect (hostport opts port);
                 EvConsumer "kafcat" topic (iter_timeout_of opts); EvSeek 0 0].
    + apply (committed_stored (set_clock 4 (w_sought b (hostport opts port) topic
                                              (iter_timeout_of opts)))).
      unfold earliest. simpl. by rewrite length_map.
  - pose proof (clock_w_start b opts topic port) as Hcl.
    inversion H1; subst.
    + intros Hk. exfalso.
      match goal with Hu : undisturbed _ (clock (w_start _ _ _ _)) _ |- _ =>
        specialize (Hu k Hi) end.
      specialize (H0 k Hi). lia.
    + intros Hk. exfalso.
      match goal with Hu : undisturbed _ (clock (w_start _ _ _ _)) _ |- _ =>
        specialize (Hu k Hi) end.
      specialize (H0 k Hi). lia.
    + intros _.
      match goal with Hp : interrupt_at env = Some (pred _) |- _ =>
        rewrite Hi in Hp; injection Hp as Hp end.
      match goal with Hcons : consumer w = Some _ |- _ => rewrite Hcons end.
      simpl. repeat split; auto; try lia.
      match goal with Hev : events w = _ |- _ => rewrite Hev end.
      exists (events (w_start b opts topic port) ++ loop_trace fetched ++
              fetch_events pending).
      by rewrite <- !app_assoc.
  - intros Hk. assert (k = 0 \/ k = 1) as [-> | ->] by lia; congruence.
Qed.

Lemma interrupt_commits_then_exits_130_witness :
  (run 9 (scenario ["-f"; "orders"] (Some 6)) orders_broker).1
    = Raise (SystemExit 130) /\
  committed (broker (run 9 (scenario ["-f"; "orders"] (Some 6)) orders_broker).2)
    "orders" = [3] /\
  (run 9 (scenario ["-f"; "orders"] (Some 1)) orders_broker).1
    = Raise (SystemExit 130) /\
  events (run 9 (scenario ["-f"; "orders"] (Some 1)) orders_broker).2
    = [EvConnect "localhost:9092"].
Proof.
  assert (H6 : 6 < clock (run 9 (scenario ["-f"; "orders"] (Some 6)) orders_broker).2).
  { vm_compute. lia. }
  assert (H1 : 1 < clock (run 9 (scenario ["-f"; "orders"] (Some 1)) orders_broker).2).
  { vm_compute. lia. }
  split.
  { exact (proj1 (interrupt_commits_then_exits_130 9
                    (scenario ["-f"; "orders"] (Some 6)) orders_broker 6 eq_refl H6)). }
  split; [vm_compute; reflexivity|].
  split.
  { exact (proj1 (interrupt_commits_then_exits_130 9
                    (scenario ["-f"; "orders"] (Some 1)) orders_broker 1 eq_refl H1)). }
  vm_compute. reflexivity.
Defined.

Section Reset.

Variables (fuel : nat) (env : Env) (b : gmap string (list Partition)).
Variables (opts : list (string * string)) (topic : string).
Hypothesis Hacc : accepted (sys_argv_tail env) opts topic.

(** With [-b], a run either got past the seek to the oldest offsets and
    the commit that follows it, or was ended by an exception before it
    fetched or wrote anything. *)
Lemma reset_before_output :
  given "-b" opts ->
  let rw := run fuel env b in
  (exists addr timeout rest,
      events rw.2 =
        [EvConnect addr; EvConsumer "kafcat" topic timeout; EvSeek 0 0;
         EvCommit (earliest b topic)] ++ rest) \/
  (stdout_writes (events rw.2) = [] /\ fetched_payloads (events rw.2) = [] /\
   exists e, rw.1 = Raise e).
Proof.
  intros Hb. apply dict_in_given in Hb. simpl.
  destruct (py_int (port_text opts)) as [e|port] eqn:Hport.
  { rewrite (run_bad_port _ _ _ _ _ _ Hacc Hport). simpl. right. eauto. }
  destruct (run_cases fuel env b opts topic port Hacc Hport) as (r & w & -> & Hc).
  simpl. inversion Hc; subst; simpl; try (by right; eauto).
  destruct (streamed_events _ _ _ _ _ _ _ H1)
    as (fetched & pending & tail & Hev & _ & _ & _).
  left. rewrite Hev, events_w_start, Hb. simpl. eauto.
Qed.

(** Without [-b] no seek is made and only the last event of the run can
    be a commit. *)
Lemma no_reset_without_b :
  ¬ given "-b" opts ->
  let rw := run fuel env b in
  Forall (fun ev => ¬ is_seek ev) (events rw.2) /\
  forall before offs after,
    events rw.2 = before ++ EvCommit offs :: after -> after = [].
Proof.
  intros Hb. apply dict_in_not_given in Hb. simpl.
  destruct (py_int (port_text opts)) as [e|port] eqn:Hport.
  { rewrite (run_bad_port _ _ _ _ _ _ Hacc Hport). simpl. split; [done|].
    intros [|? ?] ? ? ?; discriminate. }
  destruct (run_cases fuel env b opts topic port Hacc Hport) as (r & w & -> & Hc).
  simpl. inversion Hc; subst; simpl; try congruence.
  - split; [done|]. intros [|? ?] ? ? ?; discriminate.
  - split; [solve_events|]. intros before offs after Heq.
    apply (commit_is_last [EvConnect (hostport opts port)] [] before after offs);
      auto; solve_events.
  - split; [solve_events|]. intros before offs after Heq.
    apply (commit_is_last [EvConnect (hostport opts port)] [] before after offs);
      auto; solve_events.
  - destruct (streamed_events _ _ _ _ _ _ _ H1)
      as (fetched & pending & tail & Hev & _ & _ & Htail).
    rewrite Hev, events_w_start, Hb. split.
    + destruct Htail as [->| ->]; solve_events.
    + intros before offs after Heq.
      rewrite !app_assoc in Heq.
      eapply commit_is_last; [| |exact Heq].
      * solve_events.
      * destruct Htail as [->| ->]; eauto.
  - split; [solve_events|]. intros before offs after Heq.
    apply (commit_is_last [EvConnect (hostport opts port);
                           EvConsumer "kafcat" topic (iter_timeout_of opts)]
             [] before after offs);
      auto; solve_events.
Qed.

End Reset.

(** C2: with [-b] the program seeks to the oldest retained offset of every
    partition of the topic and at once commits those offsets, whatever
    offsets were stored before: every write to standard output comes after
    that seek and commit, and a run that no exception ended has made them;
    without [-b] the program makes no seek at all and commits only as its
    very last action. *)
Theorem seeks_and_commits_earliest_iff_b (fuel : nat) (env : Env)
    (b : gmap string (list Partition)) (opts : list (string * string))
    (topic : string) :
  accepted (sys_argv_tail env) opts topic ->
  let rw := run fuel env b in
  (given "-b" opts ->
   forall before text after,
     events rw.2 = before ++ EvStdout text :: after ->
     exists addr timeout rest,
       before =
         [EvConnect addr; EvConsumer "kafcat" topic timeout; EvSeek 0 0;
          EvCommit (map p_start (partitions b topic))] ++ rest) /\
  (given "-b" opts ->
   (forall e, rw.1 ≠ Raise e) ->
   exists addr timeout rest,
     events rw.2 =
       [EvConnect addr; EvConsumer "kafcat" topic timeout; EvSeek 0 0;
        EvCommit (map p_start (partitions b topic))] ++ rest) /\
  (¬ given "-b" opts ->
   Forall (fun ev => ¬ is_seek ev) (events rw.2) /\
   forall before offs after,
     events rw.2 = before ++ EvCommit offs :: after -> after = []).
Proof.
  intros Hacc. simpl. split; [|split].
  - intros Hb before text after Heq.
    destruct (reset_before_output fuel env b opts topic Hacc Hb)
      as [(addr & timeout & rest & Hev)|[Hout _]].
    + rewrite Hev in Heq. exists addr, timeout.
      destruct before as [|e1 [|e2 [|e3 [|e4 before]]]]; simpl in Heq;
        try discriminate.
      injection Heq as <- <- <- <- Heq. by exists before.
    + simpl in Hout. rewrite Heq, stdout_writes_app in Hout.
      apply app_eq_nil in Hout as [_ Hout]. discriminate.
  - intros Hb Hr.
    destruct (reset_before_output fuel env b opts topic Hacc Hb)
      as [Hev|(_ & _ & e & He)]; [exact Hev|].
    destruct (Hr e He).
  - intros Hb. exact (no_reset_without_b fuel env b opts topic Hacc Hb).
Qed.

Lemma seeks_and_commits_earliest_iff_b_witness :
  accepted ["-bf"; "orders"] [("-b", ""); ("-f", "")] "orders" /\
  given "-b" [("-b", ""); ("-f", "")] /\
  events (run 2 (scenario ["-bf"; "orders"] None) orders_broker).2 =
    [EvConnect "localhost:9092"; EvConsumer "kafcat" "orders" None;
     EvSeek 0 0; EvCommit [0]; EvFetched 0 0 "A"; EvStdout ("A" +:+ nl);
     EvFetched 0 1 "B"; EvStdout ("B" +:+ nl)] /\
  (exists addr timeout rest,
      [EvConnect "localhost:9092"; EvConsumer "kafcat" "orders" None;
       EvSeek 0 0; EvCommit [0]; EvFetched 0 0 "A"] =
      [EvConnect addr; EvConsumer "kafcat" "orders" timeout; EvSeek 0 0;
       EvCommit (map p_start (partitions orders_broker "orders"))] ++ rest).
Proof.
  assert (Ha : accepted (sys_argv_tail (scenario ["-bf"; "orders"] None))
                 [("-b", ""); ("-f", "")] "orders") by (vm_compute; reflexivity).
  assert (Hb : given "-b" [("-b", ""); ("-f", "")]).
  { unfold given. simpl. apply list_elem_of_here. }
  assert (He : events (run 2 (scenario ["-bf"; "orders"] None) orders_broker).2 =
    [EvConnect "localhost:9092"; EvConsumer "kafcat" "orders" None;
     EvSeek 0 0; EvCommit [0]; EvFetched 0 0 "A"; EvStdout ("A" +:+ nl);
     EvFetched 0 1 "B"; EvStdout ("B" +:+ nl)]) by (vm_compute; reflexivity).
  split; [exact Ha|]. split; [exact Hb|]. split; [exact He|].
  exact (proj1 (seeks_and_commits_earliest_iff_b 2 _ orders_broker _ _ Ha) Hb
           [EvConnect "localhost:9092"; EvConsumer "kafcat" "orders" None;
            EvSeek 0 0; EvCommit [0]; EvFetched 0 0 "A"]
           ("A" +:+ nl)
           [EvFetched 0 1 "B"; EvStdout ("B" +:+ nl)] He).
Defined.

(** ** The output and the feed *)
Section Feed.

Variable env : Env.

Lemma append_message_store_offsets parts : forall offs pm,
  Kafka.append_message (Kafka.store_offsets parts offs) pm =
  Kafka.store_offsets (Kafka.append_message parts pm) offs.
Proof.
  assert (Hnil : forall l, Kafka.store_offsets l [] = l) by (by intros []).
  unfold Kafka.append_message.
  induction parts as [|p parts IH]; intros [|o offs] [i m];
    rewrite ?Hnil; try done.
  destruct i as [|i]; [done|].
  change (mkPartition (p_start p) (p_log p) o ::
            alter (fun p => mkPartition (p_start p) (p_log p ++ [m]) (p_committed p))
              i (Kafka.store_offsets parts offs) =
          mkPartition (p_start p) (p_log p) o ::
            Kafka.store_offsets
              (alter (fun p => mkPartition (p_start p) (p_log p ++ [m]) (p_committed p))
                 i parts) offs).
  f_equal. exact (IH offs (i, m)).
Qed.

Lemma deliver_store_offsets new : forall parts offs,
  Kafka.deliver new (Kafka.store_offsets parts offs) =
  Kafka.store_offsets (Kafka.deliver new parts) offs.
Proof.
  induction new as [|pm new IH]; intros parts offs; [done|].
  simpl. rewrite append_message_store_offsets. apply IH.
Qed.

(** The feed does not depend on the offsets stored at the broker. *)
Lemma feed_store_offsets prod timeout rounds : forall k parts stored_offs offs,
  feed rounds prod k (Kafka.store_offsets parts stored_offs) offs timeout =
  feed rounds prod k parts offs timeout.
Proof.
  induction rounds as [|rounds IH]; intros k parts stored_offs offs; [done|].
  cbn [feed]. cbv zeta.
  rewrite deliver_store_offsets, first_available_store_offsets.
  destruct (Kafka.first_available 0 _ offs) as [[[i o] m]|].
  - by rewrite IH.
  - destruct timeout; [done|]. apply IH.
Qed.

(** With silent producers, the feed of a topic of one partition read with
    a timeout is what the partition retains from the consumer's offset on,
    once the rounds suffice. *)
Lemma feed_one_partition (prod : nat -> list (nat * string)) p t :
  (forall k, prod k = []) ->
  forall rounds o k,
    p_start p <= o -> Kafka.p_end p - o < rounds ->
    map snd (feed rounds prod k [p] [o] (Some t)) = drop (o - p_start p) (p_log p).
Proof.
  intros Hq. induction rounds as [|rounds IH]; intros o k Ho Hr; [lia|].
  cbn [feed]. rewrite Hq. cbn [Kafka.deliver fold_left Kafka.first_available].
  unfold Kafka.fetch. rewrite (proj2 (Nat.leb_le _ _) Ho).
  unfold Kafka.p_end in Hr.
  destruct (p_log p !! (o - p_start p)) as [m|] eqn:Hm.
  - cbn [map snd]. change (<[0 := S o]> [o]) with [S o].
    rewrite (IH (S o) (S k)).
    + replace (S o - p_start p) with (S (o - p_start p)) by lia.
      symmetry. by apply drop_S.
    + lia.
    + apply lookup_lt_Some in Hm. unfold Kafka.p_end. lia.
  - apply lookup_ge_None in Hm. by rewrite drop_ge.
Qed.

(** The loop hands over the feed, message by message, and writes each
    message before it asks for the next one: what it has fetched is a
    prefix of the feed, and the whole feed when the loop was not
    interrupted. *)
Lemma for_in_consumer_feed topic timeout fuel : forall w offs,
  consumer w = Some (mkConsumer topic offs timeout) ->
  exists ending fetched rest w',
    for_in_consumer fuel print_message env w = (result_of ending, w') /\
    feed fuel (produced env) (polls w) (partitions (broker w) topic) offs timeout =
      fetched ++ unwritten ending ++ rest /\
    events w' =
      events w ++ loop_trace fetched ++ fetch_events (unwritten ending) /\
    consumer w' =
      Some (mkConsumer topic (advance offs (fetched ++ unwritten ending)) timeout) /\
    match ending with
    | Exhausted | StillRunning => rest = []
    | _ => True
    end.
Proof.
  induction fuel as [|fuel IH]; intros w offs Hc.
  { exists StillRunning, [], [], w. simpl. rewrite !app_nil_r. auto. }
  cbn [for_in_consumer feed]. cbv zeta. unfold mbind, M_bind, bind at 1.
  rewrite (next_round _ _ _ _ _ Hc).
  case_bool_decide as Hi.
  { eexists InterruptedWaiting, [], _, (set_clock (S (clock w)) w). simpl.
    rewrite !app_nil_r. repeat split; auto. }
  cbv zeta.
  rewrite partitions_alter by apply deliver_no_partitions.
  set (parts' := Kafka.deliver (produced env (polls w)) (partitions (broker w) topic)).
  set (b' := alter _ topic (broker w)).
  assert (Hparts : partitions b' topic = parts').
  { unfold b'. by rewrite partitions_alter by apply deliver_no_partitions. }
  destruct (Kafka.first_available 0 parts' offs) as [[[i o] m]|] eqn:Hav.
  - unfold bind at 1. cbn beta iota. rewrite print_round. cbn [clock set_events
      set_consumer set_polls set_broker set_clock].
    case_bool_decide as Hi2.
    + eexists (InterruptedWriting i o m), [], _,
        (set_clock (S (S (clock w)))
           (set_events (fun evs => evs ++ [EvFetched i o m])
              (set_consumer (Some (mkConsumer topic (<[i := S o]> offs) timeout))
                 (set_polls (S (polls w)) (set_broker b' (set_clock (S (clock w)) w)))))).
      simpl. repeat split; auto.
    + match goal with |- context [for_in_consumer fuel _ env ?w2] =>
        destruct (IH w2 (<[i := S o]> offs) eq_refl)
          as (ending & fetched & rest & w' & Hrun & Hfeed & Hev & Hcons & Hend)
      end.
      cbn [polls broker events set_events set_consumer set_polls set_broker
           set_clock] in Hfeed, Hev.
      rewrite Hparts in Hfeed.
      exists ending, ((i, o, m) :: fetched), rest, w'.
      rewrite Hrun. split; [done|].
      split. { rewrite Hfeed. reflexivity. }
      split. { rewrite Hev, <- !app_assoc. reflexivity. }
      split; [exact Hcons|exact Hend].
  - destruct timeout as [t|]; cbn beta iota.
    + exists Exhausted, [], [],
        (set_polls (S (polls w)) (set_broker b' (set_clock (S (clock w)) w))).
      simpl. rewrite !app_nil_r. repeat split; auto.
    + match goal with |- context [for_in_consumer fuel _ env ?w2] =>
        destruct (IH w2 offs Hc)
          as (ending & fetched & rest & w' & Hrun & Hfeed & Hev & Hcons & Hend)
      end.
      cbn [polls broker events set_events set_consumer set_polls set_broker
           set_clock] in Hfeed, Hev.
      rewrite Hparts in Hfeed.
      exists ending, fetched, rest, w'. rewrite Hrun. auto.
Qed.

(** The same for the loop with the commit and the handler around it. *)
Lemma stream_feed topic timeout fuel w offs :
  consumer w = Some (mkConsumer topic offs timeout) ->
  exists r w' fetched pending rest,
    stream fuel env w = (r, w') /\
    feed fuel (produced env) (polls w) (partitions (broker w) topic) offs timeout =
      fetched ++ pending ++ rest /\
    stdout_writes (events w') =
      stdout_writes (events w) ++ map (fun x => x.2 +:+ nl) fetched /\
    fetched_payloads (events w') =
      fetched_payloads (events w) ++ map snd fetched ++ map snd pending /\
    (pending = [] \/ (exists x, pending = [x]) /\ r = Raise (SystemExit 130)) /\
    (r = Ok tt \/ r = Running -> pending = [] /\ rest = []).
Proof.
  intros Hc.
  destruct (for_in_consumer_feed topic timeout fuel w offs Hc)
    as (ending & fetched & rest & w1 & Hrun & Hfeed & Hev & Hcons & Hend).
  assert (Hout : forall tail,
    stdout_writes tail = [] -> fetched_payloads tail = [] ->
    stdout_writes (events w1 ++ tail) =
      stdout_writes (events w) ++ map (fun x => x.2 +:+ nl) fetched /\
    fetched_payloads (events w1 ++ tail) =
      fetched_payloads (events w) ++ map snd fetched ++ map snd (unwritten ending)).
  { intros tail Hs Hf.
    rewrite Hev, !stdout_writes_app, !fetched_payloads_app, stdout_writes_loop,
      stdout_writes_fetch, fetched_payloads_loop, fetched_payloads_fetch, Hs, Hf.
    by rewrite !app_nil_r. }
  unfold stream, try_except, mbind, M_bind, bind. rewrite Hrun.
  destruct ending; cbn [result_of unwritten] in *.
  - unfold interruptible. case_bool_decide as Hi.
    + cbn [handler].
      rewrite (on_interrupt_bound _ (set_clock (S (clock w1)) w1) _ _ _ Hcons).
      subst rest.
      eexists _, _, fetched, [], []. split; [reflexivity|]. split; [exact Hfeed|].
      destruct (Hout [EvCommit (advance offs (fetched ++ []))]) as [Hs Hf]; try done.
      split; [exact Hs|]. split; [exact Hf|]. split; [by left|done].
    + rewrite (commit_eq _ (set_clock (S (clock w1)) w1) _ _ _ Hcons).
      subst rest.
      eexists _, _, fetched, [], []. split; [reflexivity|]. split; [exact Hfeed|].
      destruct (Hout [EvCommit (advance offs (fetched ++ []))]) as [Hs Hf]; try done.
      split; [exact Hs|]. split; [exact Hf|]. split; [by left|done].
  - subst rest.
    eexists _, _, fetched, [], []. split; [reflexivity|]. split; [exact Hfeed|].
    destruct (Hout []) as [Hs Hf]; try done. rewrite app_nil_r in Hs, Hf.
    split; [exact Hs|]. split; [exact Hf|]. split; [by left|done].
  - cbn [handler]. rewrite (on_interrupt_bound _ w1 _ _ _ Hcons).
    eexists _, _, fetched, [], rest. split; [reflexivity|]. split; [exact Hfeed|].
    destruct (Hout [EvCommit (advance offs (fetched ++ []))]) as [Hs Hf]; try done.
    split; [exact Hs|]. split; [exact Hf|]. split; [by left|].
    intros [|]; discriminate.
  - cbn [handler]. rewrite (on_interrupt_bound _ w1 _ _ _ Hcons).
    eexists _, _, fetched, [(partition, offset, payload)], rest.
    split; [reflexivity|]. split; [exact Hfeed|].
    destruct (Hout [EvCommit (advance offs (fetched ++ [(partition, offset, payload)]))])
      as [Hs Hf]; try done.
    split; [exact Hs|]. split; [exact Hf|]. split; [right; eauto|].
    intros [|]; discriminate.
Qed.

End Feed.

(** C5: the program writes to standard output the messages of the topic's
    feed, in the order the consumer hands them over, each as its payload
    unchanged followed by one newline, and nothing else. What it has
    written is always a prefix of the feed; only a message handed over at
    the very instant of the interrupt remains unwritten; and a run that
    ended normally, or that is still running, has written every message the
    feed held so far. *)
Theorem output_is_payloads_with_newlines (fuel : nat) (env : Env)
    (b : gmap string (list Partition)) (opts : list (string * string))
    (topic : string) :
  accepted (sys_argv_tail env) opts topic ->
  let rw := run fuel env b in
  let handed :=
    map snd (feed fuel (produced env) 0 (partitions b topic)
               (start_offsets b opts topic) (iter_timeout_of opts)) in
  exists written pending rest,
    handed = written ++ pending ++ rest /\
    stdout_writes (events rw.2) = map (fun m => m +:+ nl) written /\
    stdout_of (events rw.2) = foldr (fun m out => (m +:+ nl) +:+ out) "" written /\
    fetched_payloads (events rw.2) = written ++ pending /\
    (pending = [] \/
     (exists m, pending = [m]) /\ rw.1 = Raise (SystemExit 130)) /\
    (rw.1 = Ok tt \/ rw.1 = Running -> pending = [] /\ rest = []).
Proof.
  intros Hacc. cbv zeta.
  set (handed := map snd (feed fuel (produced env) 0 (partitions b topic)
                            (start_offsets b opts topic) (iter_timeout_of opts))).
  set (P := fun rw : result unit * World =>
    exists written pending rest,
      handed = written ++ pending ++ rest /\
      stdout_writes (events rw.2) = map (fun m => m +:+ nl) written /\
      stdout_of (events rw.2) = foldr (fun m out => (m +:+ nl) +:+ out) "" written /\
      fetched_payloads (events rw.2) = written ++ pending /\
      (pending = [] \/
       (exists m, pending = [m]) /\ rw.1 = Raise (SystemExit 130)) /\
      (rw.1 = Ok tt \/ rw.1 = Running -> pending = [] /\ rest = [])).
  change (P (run fuel env b)).
  assert (Hcut : forall e w,
            stdout_writes (events w) = [] -> fetched_payloads (events w) = [] ->
            P (Raise e, w)).
  { intros e w Hs Hf. exists [], [], handed. cbn [fst snd]. unfold stdout_of.
    rewrite Hs, Hf. split; [done|]. split; [done|]. split; [done|].
    split; [done|]. split; [by left|]. intros [|]; discriminate. }
  assert (Hloop : forall w,
            consumer w = Some (mkConsumer topic (start_offsets b opts topic)
                                 (iter_timeout_of opts)) ->
            polls w = 0 ->
            feed fuel (produced env) 0 (partitions (broker w) topic)
              (start_offsets b opts topic) (iter_timeout_of opts) =
            feed fuel (produced env) 0 (partitions b topic)
              (start_offsets b opts topic) (iter_timeout_of opts) ->
            stdout_writes (events w) = [] -> fetched_payloads (events w) = [] ->
            P (stream fuel env w)).
  { intros w Hc Hpolls Hparts Hs Hf.
    destruct (stream_feed env topic (iter_timeout_of opts) fuel w
                (start_offsets b opts topic) Hc)
      as (r & w' & fetched & pending & rest & -> & Hfeed & Hout & Hfet & Hpend & Hfull).
    rewrite Hpolls, Hparts in Hfeed. rewrite Hs in Hout. rewrite Hf in Hfet.
    exists (map snd fetched), (map snd pending), (map snd rest). cbn [fst snd].
    split. { unfold handed. by rewrite Hfeed, !map_app. }
    split. { by rewrite Hout, map_map. }
    split. { unfold stdout_of. rewrite Hout. cbn [app].
             rewrite <- (foldr_append_map (fun m => m +:+ nl) (map snd fetched)).
             by rewrite map_map. }
    split; [exact Hfet|].
    split.
    - destruct Hpend as [->|[[x ->] ->]]; [by left|]. right. split; [|done].
      by exists x.2.
    - intros Hr. destruct (Hfull Hr) as [-> ->]. done. }
  destruct (py_int (port_text opts)) as [e|port] eqn:Hport.
  { rewrite (run_bad_port _ _ _ _ _ _ Hacc Hport). by apply Hcut. }
  rewrite (run_eq _ _ _ _ _ _ Hacc Hport). cbv zeta.
  case_bool_decide; [by apply Hcut|].
  destruct (broker_up env); [|by apply Hcut].
  case_bool_decide; [by apply Hcut|].
  case_bool_decide; [by apply Hcut|].
  unfold start_offsets in *.
  destruct (dict_in "-b" (dict opts)).
  - case_bool_decide; [by apply Hcut|].
    case_bool_decide; [by apply Hcut|].
    apply Hloop; try done.
    unfold w_reset, stored. cbn [broker set_broker set_events set_clock w_sought].
    rewrite partitions_alter by done. apply feed_store_offsets.
  - by apply Hloop.
Qed.

Lemma output_is_payloads_with_newlines_witness :
  accepted ["orders"] [] "orders" /\
  stdout_writes (events (run 9 (scenario ["orders"] None) orders_broker).2) =
    ["B" +:+ nl; "C" +:+ nl].
Proof.
  assert (Ha : accepted (sys_argv_tail (scenario ["orders"] None)) [] "orders")
    by (vm_compute; reflexivity).
  split; [exact Ha|].
  destruct (output_is_payloads_with_newlines 9 _ orders_broker _ _ Ha)
    as (written & pending & rest & Hfeed & Hw & _ & _ & _ & Hfull).
  destruct (Hfull (or_introl eq_refl)) as [Hp Hr].
  rewrite Hp, Hr, !app_nil_r in Hfeed.
  rewrite Hw, <- Hfeed. reflexivity.
Defined.

(** The scenario of the specification: from the stored offset 1 a one-shot
    run writes ["B"] and ["C"], one per line, and commits offset 3. *)
Example scenario_one_shot :
  let rw := run 9 (scenario ["orders"] None) orders_broker in
  rw.1 = Ok tt /\
  stdout_of (events rw.2) = "B" +:+ nl +:+ "C" +:+ nl /\
  committed (broker rw.2) "orders" = [3].
Proof. vm_compute. auto. Qed.

(** ** Termination of the loop *)
Section Termination.

Variable env : Env.
Hypothesis Hno_interrupt : interrupt_at env = None.

Lemma first_available_backlog parts : forall offs j i o m,
  Kafka.first_available j parts offs = Some (i, o, m) ->
  j <= i /\ backlog parts (<[i - j := S o]> offs) < backlog parts offs.
Proof.
  induction parts as [|p parts IH]; intros [|o0 offs] j i o m; simpl;
    try discriminate.
  destruct (Kafka.fetch p o0) as [m0|] eqn:Hf.
  - intros H. injection H as <- <- <-. split; [lia|].
    replace (j - j) with 0 by lia. simpl.
    unfold Kafka.fetch in Hf. unfold unread, Kafka.p_end.
    destruct (p_start p <=? o0) eqn:Hle; [|discriminate].
    apply Nat.leb_le in Hle. apply lookup_lt_Some in Hf.
    destruct (p_start p <=? S o0) eqn:Hle'; [|apply Nat.leb_gt in Hle'; lia].
    lia.
  - intros H. apply IH in H as [Hle Hlt]. split; [lia|].
    replace (i - j) with (S (i - S j)) by lia. simpl. lia.
Qed.

Lemma partitions_quiet (b : gmap string (list Partition)) topic :
  partitions (alter (Kafka.deliver []) topic b) topic = partitions b topic.
Proof. by rewrite partitions_alter. Qed.

(** Once the producers are quiet the loop of a consumer with a timeout
    ends within as many rounds as there are unread messages, plus one. *)
Lemma loop_drains topic t fuel : forall w offs,
  consumer w = Some (mkConsumer topic offs (Some t)) ->
  quiet_from (polls w) env ->
  backlog (partitions (broker w) topic) offs < fuel ->
  exists w', for_in_consumer fuel print_message env w = (Ok tt, w').
Proof.
  induction fuel as [|fuel IH]; intros w offs Hc Hq Hb; [lia|].
  simpl. unfold mbind, M_bind, bind at 1.
  rewrite (next_round _ _ _ _ _ Hc), Hno_interrupt. simpl.
  rewrite (Hq (polls w)) by lia. rewrite partitions_quiet.
  destruct (Kafka.first_available 0 (partitions (broker w) topic) offs)
    as [[[i o] m]|] eqn:Hav; [|eauto].
  unfold bind at 1. rewrite print_round, Hno_interrupt. simpl.
  apply first_available_backlog in Hav as [_ Hlt].
  rewrite Nat.sub_0_r in Hlt.
  match goal with |- context [for_in_consumer fuel _ env ?w2] =>
    apply (IH w2 (<[i := S o]> offs)) end; simpl; auto.
  - intros k Hk. apply Hq. lia.
  - rewrite partitions_quiet. lia.
Qed.

(** Producers that fall quiet after finitely many fetches let the loop of
    a consumer with a timeout end. *)
Lemma loop_terminates topic t d : forall w offs,
  consumer w = Some (mkConsumer topic offs (Some t)) ->
  quiet_from (polls w + d) env ->
  exists fuel0, forall fuel, fuel0 <= fuel ->
    exists w', for_in_consumer fuel print_message env w = (Ok tt, w').
Proof.
  induction d as [|d IH]; intros w offs Hc Hq.
  { rewrite Nat.add_0_r in Hq.
    exists (S (backlog (partitions (broker w) topic) offs)).
    intros fuel Hf. eapply loop_drains; eauto. }
  set (b' := alter (Kafka.deliver (produced env (polls w))) topic (broker w)).
  destruct (Kafka.first_available 0 (partitions b' topic) offs)
    as [[[i o] m]|] eqn:Hav.
  - match type of Hav with _ = Some (?i, ?o, ?m) =>
      destruct (IH
        (set_events (fun evs => evs ++ [EvStdout (m +:+ nl)])
          (set_clock (S (S (clock w)))
            (set_events (fun evs => evs ++ [EvFetched i o m])
              (set_consumer (Some (mkConsumer topic (<[i := S o]> offs) (Some t)))
                (set_polls (S (polls w))
                  (set_broker b' (set_clock (S (clock w)) w)))))))
        (<[i := S o]> offs)) as [fuel0 Hfuel0]
    end.
    { reflexivity. }
    { simpl. intros k Hk. apply Hq. lia. }
    exists (S fuel0). intros [|fuel] Hf; [lia|].
    simpl. unfold mbind, M_bind, bind at 1.
    rewrite (next_round _ _ _ _ _ Hc), Hno_interrupt. simpl.
    fold b'. rewrite Hav.
    unfold bind at 1. rewrite print_round, Hno_interrupt. simpl.
    apply Hfuel0. lia.
  - exists 1. intros [|fuel] Hf; [lia|].
    simpl. unfold mbind, M_bind, bind at 1.
    rewrite (next_round _ _ _ _ _ Hc), Hno_interrupt. simpl.
    fold b'. rewrite Hav. eauto.
Qed.

(** After the loop has ended normally, the last commit ends the run. *)
Lemma stream_completes fuel w w1 topic offs timeout :
  consumer w = Some (mkConsumer topic offs timeout) ->
  for_in_consumer fuel print_message env w = (Ok tt, w1) ->
  (stream fuel env w).1 = Ok tt.
Proof.
  intros Hc Hrun.
  destruct (for_in_consumer_spec env topic timeout fuel w offs Hc)
    as (ending & fetched & w' & Hrun' & _ & Hcons & _).
  rewrite Hrun in Hrun'. injection Hrun' as Hr <-.
  unfold stream, try_except, mbind, M_bind, bind. rewrite Hrun.
  unfold interruptible. rewrite Hno_interrupt. simpl.
  erewrite commit_eq by (simpl; exact Hcons). reflexivity.
Qed.

(** A consumer without a timeout never ends its loop by itself. *)
Lemma follow_never_returns topic fuel w offs :
  consumer w = Some (mkConsumer topic offs None) ->
  (stream fuel env w).1 = Running.
Proof.
  intros Hc.
  destruct (for_in_consumer_spec env topic None fuel w offs Hc)
    as (ending & fetched & w' & Hrun & _ & _ & _ & _ & _ & Hend).
  unfold stream, try_except, mbind, M_bind, bind. rewrite Hrun.
  destruct ending; simpl in *.
  - destruct Hend as (_ & [? ?] & _). discriminate.
  - reflexivity.
  - destruct Hend as [Hi _]. congruence.
  - destruct Hend as [Hi _]. congruence.
Qed.

End Termination.

(** ** One-shot and follow mode *)
Section Modes.

Variables (env : Env) (b : gmap string (list Partition)).
Variables (opts : list (string * string)) (topic : string) (port : Z).
Hypothesis Hacc : accepted (sys_argv_tail env) opts topic.
Hypothesis Hport : py_int (port_text opts) = inr port.
Hypothesis Hup : broker_up env = true.
Hypothesis Hno_interrupt : interrupt_at env = None.
Hypothesis Hknown : is_Some (b !! topic).

Lemma never_disturbed n m : undisturbed env n m.
Proof. intros k Hk. congruence. Qed.

Lemma consumer_w_start :
  consumer (w_start b opts topic port) =
    Some (mkConsumer topic (start_offsets b opts topic) (iter_timeout_of opts)).
Proof.
  unfold w_start, start_offsets. destruct (dict_in "-b" (dict opts)); reflexivity.
Qed.

Lemma polls_w_start : polls (w_start b opts topic port) = 0.
Proof. unfold w_start. destruct (dict_in "-b" (dict opts)); reflexivity. Qed.

Lemma run_is_stream fuel :
  run fuel env b = stream fuel env (w_start b opts topic port).
Proof. apply run_stream_start; auto. apply never_disturbed. Qed.

(** In follow mode no amount of fuel lets the run end. *)
Lemma follow_mode_runs_forever fuel :
  given "-f" opts -> (run fuel env b).1 = Running.
Proof.
  intros Hf. apply dict_in_given in Hf. rewrite run_is_stream.
  eapply follow_never_returns; [done|].
  rewrite consumer_w_start. unfold iter_timeout_of. by rewrite Hf.
Qed.

(** In one-shot mode the run ends normally once the producers are quiet. *)
Lemma one_shot_completes n :
  ¬ given "-f" opts -> quiet_from n env ->
  exists fuel0, forall fuel, fuel0 <= fuel -> (run fuel env b).1 = Ok tt.
Proof.
  intros Hf Hq. apply dict_in_not_given in Hf.
  destruct (loop_terminates env Hno_interrupt topic (1 # 2)%Q n
              (w_start b opts topic port) (start_offsets b opts topic))
    as [fuel0 Hfuel0].
  { rewrite consumer_w_start. unfold iter_timeout_of. by rewrite Hf. }
  { by rewrite polls_w_start. }
  exists fuel0. intros fuel Hfuel. rewrite run_is_stream.
  destruct (Hfuel0 fuel Hfuel) as [w1 Hrun].
  eapply stream_completes; eauto. apply consumer_w_start.
Qed.

End Modes.

(** A run that ended normally fetched and wrote some messages, committed the
    offsets it reached as its last action, and left nothing to fetch. *)
Lemma run_ok_completed fuel env b w :
  run fuel env b = (Ok tt, w) ->
  exists opts topic port fetched,
    accepted (sys_argv_tail env) opts topic /\
    py_int (port_text opts) = inr port /\
    is_Some (iter_timeout_of opts) /\
    let offs := advance (start_offsets b opts topic) fetched in
    events w =
      events (w_start b opts topic port) ++ loop_trace fetched ++ [EvCommit offs] /\
    consumer w = Some (mkConsumer topic offs (iter_timeout_of opts)) /\
    committed (broker w) topic = offs /\
    Kafka.first_available 0 (partitions (broker w) topic) offs = None.
Proof.
  intros Hrun.
  destruct (accepted_or_malformed (sys_argv_tail env))
    as [(opts & topic & Hacc)|[[msg H]|(opts & pos & H & Hlen)]].
  2: { rewrite (run_getopt_error _ _ _ _ H) in Hrun. discriminate. }
  2: { rewrite (run_bad_arity _ _ _ _ _ H Hlen) in Hrun. discriminate. }
  destruct (py_int (port_text opts)) as [e|port] eqn:Hport.
  { rewrite (run_bad_port _ _ _ _ _ _ Hacc Hport) in Hrun. discriminate. }
  destruct (run_cases fuel env b opts topic port Hacc Hport) as (r & w' & Hrun' & Hc).
  rewrite Hrun in Hrun'. injection Hrun' as <- <-.
  inversion Hc; subst. inversion H1; subst.
  exists opts, topic, port, fetched. simpl. repeat split; auto.
Qed.

(** C3: for a topic the broker knows, with [-f] the consumer is built
    without a timeout and the program never ends by itself, however long it
    runs; without [-f] the consumer is built with a timeout of half a second
    and, once the producers are quiet, the program ends normally with
    nothing left to fetch. *)
Theorem follow_never_ends_one_shot_drains (env : Env)
    (b : gmap string (list Partition)) (opts : list (string * string))
    (topic : string) (port : Z) :
  accepted (sys_argv_tail env) opts topic ->
  py_int (port_text opts) = inr port ->
  broker_up env = true ->
  is_Some (b !! topic) ->
  interrupt_at env = None ->
  (given "-f" opts ->
   forall fuel,
     let rw := run fuel env b in
     rw.1 = Running /\ exit_status rw.1 = None /\
     events rw.2 !! 1 = Some (EvConsumer "kafcat" topic None)) /\
  (¬ given "-f" opts ->
   forall n, quiet_from n env ->
   exists fuel0, forall fuel, fuel0 <= fuel ->
     let rw := run fuel env b in
     rw.1 = Ok tt /\
     events rw.2 !! 1 = Some (EvConsumer "kafcat" topic (Some (1 # 2)%Q)) /\
     exists c, consumer rw.2 = Some c /\
       Kafka.first_available 0 (partitions (broker rw.2) topic) (c_offsets c) = None).
Proof.
  intros Hacc Hport Hup Hknown Hi. split.
  - intros Hf fuel. simpl.
    pose proof (follow_mode_runs_forever env b opts topic port Hacc Hport Hup Hi
                  Hknown fuel Hf) as Hr.
    rewrite Hr. repeat split; auto.
    destruct (run_cases fuel env b opts topic port Hacc Hport) as (r & w & Hrun & Hc).
    rewrite Hrun in *. simpl in *. subst r.
    inversion Hc; subst. inversion H1; subst.
    match goal with Hev : events w = _ |- _ => rewrite Hev, events_w_start end.
    apply dict_in_given in Hf. unfold iter_timeout_of. rewrite Hf. reflexivity.
  - intros Hf n Hq.
    destruct (one_shot_completes env b opts topic port Hacc Hport Hup Hi Hknown
                n Hf Hq)
      as [fuel0 Hfuel0].
    exists fuel0. intros fuel Hfuel. simpl.
    specialize (Hfuel0 fuel Hfuel).
    destruct (run fuel env b) as [r w] eqn:Hrun. simpl in *. subst r.
    split; [done|].
    destruct (run_ok_completed _ _ _ _ Hrun)
      as (opts' & topic' & port' & fetched & Hacc' & _ & _ & Hev & Hcons & _ & Hav).
    unfold accepted in *. rewrite Hacc in Hacc'. injection Hacc' as <- <-.
    split.
    + rewrite Hev, events_w_start.
      apply dict_in_not_given in Hf. unfold iter_timeout_of. rewrite Hf. reflexivity.
    + eexists. split; [exact Hcons|]. exact Hav.
Qed.

Lemma follow_never_ends_one_shot_drains_witness :
  (forall fuel, (run fuel (scenario ["-f"; "orders"] None) orders_broker).1 = Running) /\
  (exists fuel0, forall fuel, fuel0 <= fuel ->
     (run fuel (scenario ["orders"] None) orders_broker).1 = Ok tt).
Proof.
  split.
  - intros fuel.
    refine (proj1 (proj1 (follow_never_ends_one_shot_drains
              (scenario ["-f"; "orders"] None) orders_broker
              [("-f", "")] "orders" 9092%Z _ _ _ _ _) _ fuel)).
    + vm_compute. reflexivity.
    + vm_compute. reflexivity.
    + reflexivity.
    + vm_compute. eauto.
    + reflexivity.
    + unfold given. simpl. apply list_elem_of_here.
  - destruct (proj2 (follow_never_ends_one_shot_drains
              (scenario ["orders"] None) orders_broker [] "orders" 9092%Z
              ltac:(vm_compute; reflexivity) ltac:(vm_compute; reflexivity)
              eq_refl ltac:(vm_compute; eauto) eq_refl)
              ltac:(unfold given; simpl; apply not_elem_of_nil)
              0 ltac:(intros k _; reflexivity)) as [fuel0 H].
    exists fuel0. intros fuel Hf. exact (proj1 (H fuel Hf)).
Defined.

(** C8: in one-shot mode on a topic the broker knows, with no interrupt and
    producers that fall quiet, the program ends normally: its last action is
    the commit of the offsets the consumer has reached, which the broker
    then stores, and its exit status is 0. *)
Theorem exhaustion_commits_then_exits_0 (env : Env)
    (b : gmap string (list Partition)) (opts : list (string * string))
    (topic : string) (port : Z) (n : nat) :
  accepted (sys_argv_tail env) opts topic ->
  py_int (port_text opts) = inr port ->
  ¬ given "-f" opts ->
  broker_up env = true ->
  is_Some (b !! topic) ->
  interrupt_at env = None ->
  quiet_from n env ->
  exists fuel0, forall fuel, fuel0 <= fuel ->
    let rw := run fuel env b in
    rw.1 = Ok tt /\
    exit_status rw.1 = Some 0%Z /\
    exists c before,
      consumer rw.2 = Some c /\
      events rw.2 = before ++ [EvCommit (c_offsets c)] /\
      committed (broker rw.2) topic = c_offsets c.
Proof.
  intros Hacc Hport Hf Hup Hknown Hi Hq.
  destruct (one_shot_completes env b opts topic port Hacc Hport Hup Hi Hknown
              n Hf Hq)
    as [fuel0 Hfuel0].
  exists fuel0. intros fuel Hfuel. simpl.
  specialize (Hfuel0 fuel Hfuel).
  destruct (run fuel env b) as [r w] eqn:Hrun. simpl in *. subst r.
  repeat split; auto.
  destruct (run_ok_completed _ _ _ _ Hrun)
    as (opts' & topic' & port' & fetched & Hacc' & _ & _ & Hev & Hcons & Hcom & _).
  unfold accepted in *. rewrite Hacc in Hacc'. injection Hacc' as <- <-.
  eexists _, (events (w_start b opts topic port') ++ loop_trace fetched).
  split; [exact Hcons|]. simpl. split; [|exact Hcom].
  by rewrite Hev, <- app_assoc.
Qed.

Lemma exhaustion_commits_then_exits_0_witness :
  exists fuel0, forall fuel, fuel0 <= fuel ->
    (run fuel (scenario ["orders"] None) orders_broker).1 = Ok tt /\
    exit_status (run fuel (scenario ["orders"] None) orders_broker).1 = Some 0%Z.
Proof.
  destruct (exhaustion_commits_then_exits_0
              (scenario ["orders"] None) orders_broker [] "orders" 9092%Z 0
              ltac:(vm_compute; reflexivity) ltac:(vm_compute; reflexivity)
              ltac:(unfold given; simpl; apply not_elem_of_nil)
              eq_refl ltac:(vm_compute; eauto) eq_refl
              ltac:(intros k _; reflexivity)) as [fuel0 H].
  exists fuel0. intros fuel Hf.
  destruct (H fuel Hf) as (H1 & H2 & _). split; [exact H1 | exact H2].
Defined.

(** ** A run with nothing to read *)
Section Idle.

Variable env : Env.
Hypothesis Hquiet : forall k, produced env k = [].

Lemma partitions_undelivered (b : gmap string (list Partition)) topic k :
  partitions (alter (Kafka.deliver (produced env k)) topic b) topic =
  partitions b topic.
Proof. rewrite Hquiet. by rewrite partitions_alter. Qed.

(** With nothing to fetch and silent producers the loop leaves no trace. *)
Lemma loop_idle topic timeout fuel : forall w offs,
  consumer w = Some (mkConsumer topic offs timeout) ->
  Kafka.first_available 0 (partitions (broker w) topic) offs = None ->
  exists r w',
    for_in_consumer fuel print_message env w = (r, w') /\
    events w' = events w /\
    consumer w' = Some (mkConsumer topic offs timeout) /\
    (r = Ok tt \/ r = Running \/ r = Raise KeyboardInterrupt).
Proof.
  induction fuel as [|fuel IH]; intros w offs Hc Hav.
  { exists Running, w. simpl. repeat split; auto. }
  simpl. unfold mbind, M_bind, bind at 1.
  rewrite (next_round _ _ _ _ _ Hc).
  case_bool_decide as Hi.
  { eexists _, _. split; [reflexivity|]. simpl. repeat split; auto. }
  simpl. rewrite partitions_undelivered, Hav.
  destruct timeout as [t|]; simpl.
  - eexists _, _. split; [reflexivity|]. simpl. repeat split; auto.
  - match goal with |- context [for_in_consumer fuel _ env ?w1] =>
      destruct (IH w1 offs) as (r & w' & Hrun & Hev & Hcons & Hr) end.
    { exact Hc. }
    { simpl. by rewrite partitions_undelivered. }
    exists r, w'. rewrite Hrun. simpl in *. repeat split; auto.
Qed.

(** And the rest of the run adds at most a commit. *)
Lemma stream_idle topic timeout fuel w offs :
  consumer w = Some (mkConsumer topic offs timeout) ->
  Kafka.first_available 0 (partitions (broker w) topic) offs = None ->
  exists r w',
    stream fuel env w = (r, w') /\
    stdout_writes (events w') = stdout_writes (events w) /\
    fetched_payloads (events w') = fetched_payloads (events w).
Proof.
  intros Hc Hav.
  destruct (loop_idle topic timeout fuel w offs Hc Hav)
    as (r & w1 & Hrun & Hev & Hcons & Hr).
  unfold stream, try_except, mbind, M_bind, bind. rewrite Hrun.
  destruct Hr as [->|[->| ->]].
  - unfold interruptible. case_bool_decide as Hi.
    + eexists _, _. split.
      { cbn [handler]. eapply on_interrupt_bound. simpl. exact Hcons. }
      simpl. rewrite stdout_writes_app, fetched_payloads_app, Hev. simpl.
      by rewrite !app_nil_r.
    + erewrite commit_eq by (simpl; exact Hcons).
      eexists _, _. split; [reflexivity|]. simpl.
      rewrite stdout_writes_app, fetched_payloads_app, Hev. simpl.
      by rewrite !app_nil_r.
  - eexists _, _. split; [reflexivity|]. by rewrite Hev.
  - eexists _, _. split.
    { cbn [handler]. eapply on_interrupt_bound. exact Hcons. }
    simpl. rewrite stdout_writes_app, fetched_payloads_app, Hev. simpl.
    by rewrite !app_nil_r.
Qed.

(** A run without [-b] from a broker whose stored offsets leave nothing
    to fetch writes nothing. *)
Lemma run_idle fuel b opts topic :
  accepted (sys_argv_tail env) opts topic ->
  ¬ given "-b" opts ->
  Kafka.first_available 0 (partitions b topic) (committed b topic) = None ->
  stdout_writes (events (run fuel env b).2) = [] /\
  fetched_payloads (events (run fuel env b).2) = [].
Proof.
  intros Hacc Hb Hav. apply dict_in_not_given in Hb.
  destruct (py_int (port_text opts)) as [e|port] eqn:Hport.
  { by rewrite (run_bad_port _ _ _ _ _ _ Hacc Hport). }
  rewrite (run_eq _ _ _ _ _ _ Hacc Hport). simpl. rewrite Hb.
  case_bool_decide; [done|].
  destruct (broker_up env); [|done].
  case_bool_decide; [done|].
  case_bool_decide; [done|].
  destruct (stream_idle topic (iter_timeout_of opts) fuel
              (w_bound b (hostport opts port) topic (iter_timeout_of opts))
              (committed b topic) eq_refl Hav) as (r & w' & -> & Hout & Hfetch).
  simpl. by rewrite Hout, Hfetch.
Qed.

End Idle.

(** C9: a one-shot run on a topic the broker knows ends normally, and
    after it a second one-shot run on the same topic, with no message
    produced in between or during it, writes nothing to standard output: the
    first run committed the offsets behind everything it wrote. *)
Theorem second_one_shot_run_is_silent (env1 : Env)
    (b : gmap string (list Partition)) (opts1 : list (string * string))
    (topic : string) (port1 : Z) (n : nat) :
  accepted (sys_argv_tail env1) opts1 topic ->
  py_int (port_text opts1) = inr port1 ->
  ¬ given "-f" opts1 ->
  broker_up env1 = true ->
  is_Some (b !! topic) ->
  interrupt_at env1 = None ->
  quiet_from n env1 ->
  exists fuel0, forall fuel1, fuel0 <= fuel1 ->
    let first := run fuel1 env1 b in
    first.1 = Ok tt /\
    forall env2 opts2 fuel2,
      accepted (sys_argv_tail env2) opts2 topic ->
      ¬ given "-b" opts2 ->
      ¬ given "-f" opts2 ->
      (forall k, produced env2 k = []) ->
      let second := run fuel2 env2 (broker first.2) in
      stdout_of (events second.2) = "" /\
      fetched_payloads (events second.2) = [].
Proof.
  intros Hacc Hport Hf Hup Hknown Hi Hq.
  destruct (one_shot_completes env1 b opts1 topic port1 Hacc Hport Hup Hi Hknown
              n Hf Hq)
    as [fuel0 Hfuel0].
  exists fuel0. intros fuel1 Hfuel. simpl.
  specialize (Hfuel0 fuel1 Hfuel).
  destruct (run fuel1 env1 b) as [r w] eqn:Hrun. simpl in *. subst r.
  split; [done|].
  intros env2 opts2 fuel2 Hacc2 Hb2 _ Hq2.
  destruct (run_ok_completed _ _ _ _ Hrun)
    as (opts' & topic' & port' & fetched & Hacc' & _ & _ & _ & _ & Hcom & Hav).
  unfold accepted in Hacc, Hacc'. rewrite Hacc in Hacc'. injection Hacc' as <- <-.
  rewrite <- Hcom in Hav.
  destruct (run_idle env2 Hq2 fuel2 (broker w) opts2 topic Hacc2 Hb2 Hav)
    as [Hout Hfetch].
  split; [|exact Hfetch]. unfold stdout_of. by rewrite Hout.
Qed.

Lemma second_one_shot_run_is_silent_witness :
  exists fuel0, forall fuel1, fuel0 <= fuel1 ->
    (run fuel1 (scenario ["orders"] None) orders_broker).1 = Ok tt /\
    stdout_of
      (events (run 9 (scenario ["orders"] None)
                 (broker (run fuel1 (scenario ["orders"] None) orders_broker).2)).2)
      = "".
Proof.
  assert (Ha : accepted (sys_argv_tail (scenario ["orders"] None)) [] "orders")
    by (vm_compute; reflexivity).
  assert (Hn : forall key, ¬ given key [])
    by (intros key; unfold given; simpl; apply not_elem_of_nil).
  destruct (second_one_shot_run_is_silent
              (scenario ["orders"] None) orders_broker [] "orders" 9092%Z 0
              Ha ltac:(vm_compute; reflexivity) (Hn "-f")
              eq_refl ltac:(vm_compute; eauto) eq_refl
              ltac:(intros k _; reflexivity)) as [fuel0 H].
  exists fuel0. intros fuel1 Hf.
  destruct (H fuel1 Hf) as [H1 H2]. split; [exact H1|].
  exact (proj1 (H2 (scenario ["orders"] None) [] 9 Ha (Hn "-b") (Hn "-f")
                   (fun _ => eq_refl))).
Defined.

(** The scenario of the specification, run twice. *)
Example scenario_second_run :
  let first := run 9 (scenario ["orders"] None) orders_broker in
  let second := run 9 (scenario ["orders"] None) (broker first.2) in
  second.1 = Ok tt /\ stdout_of (events second.2) = "" /\
  committed (broker second.2) "orders" = [3].
Proof. vm_compute. auto. Qed.

(** A run that ended normally committed, as its last action, exactly the
    position behind the messages it wrote. *)
Lemma normal_end_commits_written_position fuel env b w :
  run fuel env b = (Ok tt, w) ->
  exists opts topic fetched,
    accepted (sys_argv_tail env) opts topic /\
    stdout_writes (events w) = map (fun x => x.2 +:+ nl) fetched /\
    committed (broker w) topic = advance (start_offsets b opts topic) fetched.
Proof.
  intros Hrun.
  destruct (run_ok_completed _ _ _ _ Hrun)
    as (opts & topic & port & fetched & Hacc & _ & _ & Hev & _ & Hcom & _).
  exists opts, topic, fetched. split; [exact Hacc|]. split; [|exact Hcom].
  rewrite Hev, !stdout_writes_app, stdout_writes_loop, events_w_start.
  destruct (dict_in "-b" (dict opts)); simpl; by rewrite app_nil_r.
Qed.

(** ** An interrupt between fetching and writing *)

(** C1: in the scenario of the specification, an interrupt that arrives
    when message ["B"] has been handed over by the consumer and its write
    has not been made leaves standard output empty and yet commits offset 2,
    one past the stored offset 1: the committed position is ahead of what
    was printed, and the next run starts at ["C"] and never prints ["B"]. *)
Theorem interrupt_before_write_commits_unwritten_message :
  let rw := run 9 (scenario ["orders"] (Some 3)) orders_broker in
  committed orders_broker "orders" = [1] /\
  rw.1 = Raise (SystemExit 130) /\
  events rw.2 =
    [EvConnect "localhost:9092"; EvConsumer "kafcat" "orders" (Some (1 # 2)%Q);
     EvFetched 0 1 "B"; EvCommit [2]] /\
  stdout_of (events rw.2) = "" /\
  committed (broker rw.2) "orders" = [2] /\
  stdout_of (events (run 9 (scenario ["orders"] None) (broker rw.2)).2)
    = "C" +:+ nl.
Proof. vm_compute. repeat split; reflexivity. Qed.

(** ** Where the topic stands on the command line *)
Section Positional.

Lemma do_shorts_rest optstring : forall opts shortopts args opts' rest,
  Getopt.do_shorts opts optstring shortopts args = inr (opts', rest) ->
  rest = args \/ exists a, args = a :: rest.
Proof.
  induction optstring as [|opt tl IH]; simpl; intros opts so args opts' rest H.
  - inversion H; auto.
  - destruct (Getopt.short_has_arg opt so) as [e'|[|]] eqn:E.
    + discriminate.
    + destruct tl, args; inversion H; subst; eauto.
    + eauto.
Qed.

Lemma do_longs_rest opts opt longopts args opts' rest :
  Getopt.do_longs opts opt longopts args = inr (opts', rest) ->
  rest = args \/ exists a, args = a :: rest.
Proof.
  unfold Getopt.do_longs.
  destruct (PyStr.find "=" opt) as [i|];
    (destruct (Getopt.long_has_args _ longopts) as [e'|[has o]];
     [discriminate|]);
    destruct has, args; intros H; inversion H; subst; eauto.
Qed.

(** What [getopt] returns as positional arguments is the end of what it
    was given. *)
Lemma getopt_loop_suffix shortopts longopts fuel : forall opts args opts' rest,
  Getopt.getopt_loop fuel opts args shortopts longopts = Some (inr (opts', rest)) ->
  exists front, args = front ++ rest.
Proof.
  induction fuel as [|fuel IH]; intros opts args opts' rest; simpl; [discriminate|].
  destruct args as [|a args'].
  { intros H. inversion H. by exists []. }
  destruct (_ && _).
  2: { intros H. inversion H. by exists []. }
  destruct (String.eqb a "--").
  { intros H. inversion H. by exists [a]. }
  destruct (PyStr.startswith a "--").
  - destruct (Getopt.do_longs _ _ _ _) as [e|[opts1 rest1]] eqn:E; [discriminate|].
    intros H. apply IH in H as [front Hfront].
    apply do_longs_rest in E as [E|[x E]]; subst.
    + by exists (a :: front).
    + by exists (a :: x :: front).
  - destruct (Getopt.do_shorts _ _ _ _) as [e|[opts1 rest1]] eqn:E; [discriminate|].
    intros H. apply IH in H as [front Hfront].
    apply do_shorts_rest in E as [E|[x E]]; subst.
    + by exists (a :: front).
    + by exists (a :: x :: front).
Qed.

End Positional.

(** X1: on an accepted command line the topic is the last argument: every
    option stands before it, and an argument after the first positional one
    is never read as an option. *)
Theorem topic_is_last_argument (args : list string)
    (opts : list (string * string)) (topic : string) :
  accepted args opts topic ->
  last args = Some topic /\ exists front, args = front ++ [topic].
Proof.
  intros H. apply getopt_loop_suffix in H as [front ->].
  split; [apply last_snoc|by exists front].
Qed.

Lemma topic_is_last_argument_witness :
  accepted ["-b"; "--host"; "kafka1"; "orders"]
    [("-b", ""); ("--host", "kafka1")] "orders" /\
  last ["-b"; "--host"; "kafka1"; "orders"] = Some "orders".
Proof.
  assert (H : accepted ["-b"; "--host"; "kafka1"; "orders"]
                [("-b", ""); ("--host", "kafka1")] "orders")
    by (vm_compute; reflexivity).
  split; [exact H|]. exact (proj1 (topic_is_last_argument _ _ _ H)).
Defined.

(** X2: a command line of a single argument is accepted exactly when that
    argument does not start with a dash or is the lone dash, and it is then
    the topic, with no option; after [--] any word is taken as the topic,
    also one that starts with a dash. *)
Theorem dash_topics (t : string) :
  accepted ["--"; t] [] t /\
  forall opts topic,
    accepted [t] opts topic <->
    opts = [] /\ topic = t /\ (PyStr.startswith t "-" = false \/ t = "-").
Proof.
  split; [reflexivity|].
  intros opts topic. unfold accepted, kafcat_getopt, Getopt.getopt.
  cbn [length Getopt.getopt_loop].
  destruct (PyStr.startswith t "-") eqn:Hd; cbn [andb].
  - destruct (String.eqb t "-") eqn:H1; cbn [negb].
    + apply String.eqb_eq in H1. split.
      * intros H. inversion H; subst. auto.
      * intros (-> & -> & _). reflexivity.
    + apply String.eqb_neq in H1. split.
      2: { intros (_ & _ & [?|?]); congruence. }
      destruct (String.eqb t "--"); [discriminate|].
      destruct (PyStr.startswith t "--").
      * destruct (Getopt.do_longs _ _ _ _) as [e|[opts1 rest1]] eqn:E;
          [discriminate|].
        apply do_longs_consumes in E. destruct rest1; [|simpl in E; lia].
        discriminate.
      * destruct (Getopt.do_shorts _ _ _ _) as [e|[opts1 rest1]] eqn:E;
          [discriminate|].
        apply do_shorts_consumes in E. destruct rest1; [|simpl in E; lia].
        discriminate.
  - split.
    + intros H. inversion H; subst. auto.
    + intros (-> & -> & _). reflexivity.
Qed.

(** ** How a run can end *)




(** A valid command line for a topic that a reachable broker does not
    know: the construction of the consumer fails and the status is 1. *)
Example unknown_topic_exits_1 :
  let rw := run 9 (scenario ["payments"] None) orders_broker in
  rw.1 = Raise UnknownTopicOrPartitionError /\
  exit_status rw.1 = Some 1%Z /\
  events rw.2 =
    [EvConnect "localhost:9092"; EvConsumer "kafcat" "payments" (Some (1 # 2)%Q)].
Proof. vm_compute. auto. Qed.



(** ** What is written to standard error *)

Lemma stderr_writes_app evs1 evs2 :
  stderr_writes (evs1 ++ evs2) = stderr_writes evs1 ++ stderr_writes evs2.
Proof. apply omap_app. Qed.




(** A port that is no integer: the script writes nothing to standard
    error, and the traceback of the [ValueError] reaches it. *)
Example bad_port_traceback :
  let rw := run 9 (scenario ["--port"; "http"; "orders"] None) orders_broker in
  stderr_writes (events rw.2) = [] /\
  standard_error rw = [Traceback (ValueError "http")].
Proof. vm_compute. auto. Qed.

(** ** The connection *)

(** Unless the interrupt comes first, the first thing an accepted command
    line with an integer port leads to is the connection. *)
Lemma connect_is_first_event fuel env b opts topic port :
  accepted (sys_argv_tail env) opts topic ->
  py_int (port_text opts) = inr port ->
  interrupt_at env ≠ Some 0 ->
  head (events (run fuel env b).2) = Some (EvConnect (hostport opts port)).
Proof.
  intros Hacc Hport Hi.
  destruct (run_cases fuel env b opts topic port Hacc Hport) as (r & w & -> & Hc).
  simpl. inversion Hc; subst; simpl; try done.
  destruct (streamed_events _ _ _ _ _ _ _ H1)
    as (fetched & pending & tail & Hev & _).
  by rewrite Hev, events_w_start.
Qed.

Lemma dict_get_not_given key dflt opts :
  ¬ given key opts -> dict_get (dict opts) key dflt = dflt.
Proof.
  intros H. apply dict_in_not_given in H. unfold dict_in in H.
  apply bool_decide_eq_false in H. unfold dict_get.
  destruct (dict opts !! key); [|done]. destruct H. eauto.
Qed.

(** X6: without [--host] and [--port] the program connects to
    [localhost:9092]. *)
Theorem default_address (fuel : nat) (env : Env)
    (b : gmap string (list Partition)) (opts : list (string * string))
    (topic : string) :
  accepted (sys_argv_tail env) opts topic ->
  ¬ given "--host" opts ->
  ¬ given "--port" opts ->
  interrupt_at env ≠ Some 0 ->
  head (events (run fuel env b).2) = Some (EvConnect "localhost:9092").
Proof.
  intros Hacc Hh Hp Hi.
  assert (Hport : py_int (port_text opts) = inr 9092%Z).
  { unfold port_text. by rewrite dict_get_not_given. }
  rewrite (connect_is_first_event _ _ _ _ _ _ Hacc Hport Hi).
  unfold hostport. by rewrite dict_get_not_given.
Qed.

Lemma default_address_witness :
  accepted ["-bf"; "orders"] [("-b", ""); ("-f", "")] "orders" /\
  head (events (run 3 (scenario ["-bf"; "orders"] None) orders_broker).2)
    = Some (EvConnect "localhost:9092").
Proof.
  assert (Ha : accepted (sys_argv_tail (scenario ["-bf"; "orders"] None))
                 [("-b", ""); ("-f", "")] "orders") by (vm_compute; reflexivity).
  split; [exact Ha|].
  apply (default_address 3 (scenario ["-bf"; "orders"] None) orders_broker
           [("-b", ""); ("-f", "")] "orders" Ha).
  - unfold given. simpl. intros H.
    repeat (apply elem_of_cons in H as [H|H]; [discriminate|]).
    by apply not_elem_of_nil in H.
  - unfold given. simpl. intros H.
    repeat (apply elem_of_cons in H as [H|H]; [discriminate|]).
    by apply not_elem_of_nil in H.
  - simpl. discriminate.
Defined.

(** ** How often the client is called *)
Section Counting.




End Counting.



(** ** The name in the usage text *)
Section Basename.

Lemma append_cons c (s t : string) : String c s +:+ t = String c (s +:+ t).
Proof. reflexivity. Qed.

Lemma rfind_none c s : PyStr.find c s = None -> PyStr.rfind c s = None.
Proof.
  induction s as [|d s IH]; [done|]. simpl.
  destruct (Ascii.eqb c d); [discriminate|].
  destruct (PyStr.find c s); [discriminate|]. intros _. by rewrite IH.
Qed.

Lemma rfind_last_slash dir name :
  PyStr.find "/" name = None ->
  PyStr.rfind "/" (dir +:+ String "/" name) = Some (String.length dir).
Proof.
  intros Hn. apply rfind_none in Hn.
  induction dir as [|d dir IH].
  - change (PyStr.rfind "/" (String "/" name) = Some 0). simpl. by rewrite Hn.
  - rewrite append_cons. simpl. by rewrite IH.
Qed.

Lemma drop_directory dir name :
  PyStr.drop (S (String.length dir)) (dir +:+ String "/" name) = name.
Proof.
  induction dir as [|d dir IH]; [done|].
  rewrite append_cons. exact IH.
Qed.

Lemma basename_strips_directory dir name :
  PyStr.find "/" name = None -> basename (dir +:+ String "/" name) = name.
Proof.
  intros Hn. unfold basename. rewrite (rfind_last_slash _ _ Hn).
  apply drop_directory.
Qed.

Lemma basename_plain name : PyStr.find "/" name = None -> basename name = name.
Proof. intros Hn. unfold basename. by rewrite (rfind_none _ _ Hn). Qed.

End Basename.

(** X8: the usage text names the program by the last component of the
    path it was started with: whatever directory stands before the last
    slash of [sys.argv[0]] does not appear, and a path without a slash is
    printed as it is. *)
Theorem usage_names_program_without_directory (fuel : nat) (env : Env)
    (b : gmap string (list Partition)) (dir name : string) :
  malformed (sys_argv_tail env) ->
  PyStr.find "/" name = None ->
  sys_argv0 env = dir +:+ String "/" name \/ sys_argv0 env = name ->
  stdout_of (events (run fuel env b).2) = usage_text name.
Proof.
  intros Hm Hn Hargv.
  destruct (malformed_run fuel env b Hm) as (_ & -> & _).
  f_equal. destruct Hargv as [-> | ->].
  - by apply basename_strips_directory.
  - by apply basename_plain.
Qed.

Lemma usage_names_program_without_directory_witness :
  malformed [] /\
  stdout_of (events (run 1 (scenario [] None) orders_broker).2)
    = usage_text "kafcat".
Proof.
  assert (Hm : malformed (sys_argv_tail (scenario [] None))).
  { right. exists [], []. by vm_compute. }
  split; [exact Hm|].
  apply (usage_names_program_without_directory 1 (scenario [] None)
           orders_broker "/usr/local/bin" "kafcat" Hm).
  - reflexivity.
  - left. reflexivity.
Defined.

(** ** Unknown letters in a cluster of flags *)
Section UnknownFlag.

Lemma do_shorts_unknown (c : ascii) (more : string) (args : list string) :
  c ≠ "b"%char -> c ≠ "f"%char ->
  forall known opts,
    only_flags known = true ->
    Getopt.do_shorts opts (known +:+ String c more) "bf" args =
      inl (GetoptError ("option -" +:+ String c "" +:+ " not recognized")).
Proof.
  intros Hb Hf.
  assert (Hunk : Getopt.short_has_arg c "bf" =
            inl (GetoptError ("option -" +:+ String c "" +:+ " not recognized"))).
  { simpl. apply Ascii.eqb_neq in Hb, Hf. by rewrite Hb, Hf. }
  induction known as [|k known IH]; intros opts Hk.
  - change ("" +:+ String c more) with (String c more).
    cbn [Getopt.do_shorts]. by rewrite Hunk.
  - rewrite append_cons. simpl in Hk.
    apply andb_true_iff in Hk as [Hk Hknown].
    assert (Hhas : Getopt.short_has_arg k "bf" = inr false).
    { apply orb_true_iff in Hk as [Hk|Hk]; apply Ascii.eqb_eq in Hk; by subst. }
    cbn [Getopt.do_shorts]. rewrite Hhas. by apply IH.
Qed.

Lemma first_word_is_flags (c : ascii) (known more : string) :
  c ≠ "b"%char -> c ≠ "f"%char ->
  only_flags known = true ->
  known ≠ "" \/ c ≠ "-"%char ->
  let word := String "-" (known +:+ String c more) in
  PyStr.startswith word "-" = true /\ String.eqb word "-" = false /\
  String.eqb word "--" = false /\ PyStr.startswith word "--" = false.
Proof.
  intros Hb Hf Hk Hne. simpl.
  destruct known as [|k known].
  - destruct Hne as [?|Hd]; [done|].
    change ("" +:+ String c more) with (String c more).
    destruct c as [[] [] [] [] [] [] [] []]; try congruence; by repeat split.
  - rewrite append_cons. simpl in Hk.
    apply andb_true_iff in Hk as [Hk _].
    apply orb_true_iff in Hk as [Hk|Hk]; apply Ascii.eqb_eq in Hk; subst;
      by repeat split.
Qed.

End UnknownFlag.

(** X9: when the first argument is a cluster of flags in which a letter
    other than [b] and [f] follows zero or more valid flags, the program
    reports that letter on standard error, prints the usage text and exits
    with status 1, without looking at the rest of the command line. *)
Theorem unknown_flag_is_reported (fuel : nat) (env : Env)
    (b : gmap string (list Partition)) (c : ascii) (known more : string)
    (rest : list string) :
  sys_argv_tail env = String "-" (known +:+ String c more) :: rest ->
  c ≠ "b"%char -> c ≠ "f"%char ->
  only_flags known = true ->
  known ≠ "" \/ c ≠ "-"%char ->
  let rw := run fuel env b in
  rw.1 = Raise (SystemExit 1) /\
  events rw.2 =
    [EvStderr ("Error: " +:+
               ("option -" +:+ String c "" +:+ " not recognized") +:+ nl);
     EvStdout (usage_text (basename (sys_argv0 env)))].
Proof.
  intros Hargs Hb Hf Hk Hne. simpl.
  assert (Hg : kafcat_getopt (sys_argv_tail env) =
            Some (inl (GetoptError
                         ("option -" +:+ String c "" +:+ " not recognized")))).
  { rewrite Hargs. unfold kafcat_getopt, Getopt.getopt.
    destruct (first_word_is_flags c known more Hb Hf Hk Hne)
      as (H1 & H2 & H3 & H4).
    cbn [length Getopt.getopt_loop]. rewrite H1, H2, H3, H4. cbn [negb andb].
    change (PyStr.drop 1 (String "-" (known +:+ String c more)))
      with (known +:+ String c more).
    by rewrite do_shorts_unknown. }
  by rewrite (run_getopt_error _ _ _ _ Hg).
Qed.

Lemma unknown_flag_is_reported_witness :
  (run 1 (scenario ["-bh"; "orders"] None) orders_broker).1
    = Raise (SystemExit 1) /\
  stderr_writes (events (run 1 (scenario ["-bh"; "orders"] None) orders_broker).2)
    = ["Error: option -h not recognized" +:+ nl].
Proof.
  destruct (unknown_flag_is_reported 1 (scenario ["-bh"; "orders"] None)
              orders_broker "h" "b" "" ["orders"] eq_refl
              ltac:(discriminate) ltac:(discriminate) eq_refl
              ltac:(left; discriminate)) as [Hr Hev].
  split; [exact Hr|]. rewrite Hev. reflexivity.
Defined.

(** ** Reading back a printed integer *)
Section RoundTrip.

Lemma append_assoc (s t u : string) : (s +:+ t) +:+ u = s +:+ (t +:+ u).
Proof.
  induction s as [|c s IH]; [done|]. rewrite !append_cons. by rewrite IH.
Qed.

Lemma digits_value_app s : forall acc t,
  PyStr.digits_value acc (s +:+ t) = PyStr.digits_value (PyStr.digits_value acc s) t.
Proof.
  induction s as [|c s IH]; intros acc t; [done|].
  rewrite append_cons. simpl. apply IH.
Qed.

Lemma all_digits_app s t :
  PyStr.all_digits (s +:+ t) = PyStr.all_digits s && PyStr.all_digits t.
Proof.
  induction s as [|c s IH]; [done|].
  rewrite append_cons. simpl. rewrite IH. by rewrite andb_assoc.
Qed.

Lemma pretty_N_char_digit (d : N) :
  (d < 10)%N ->
  PyStr.isdigit (pretty_N_char d) = true /\
  (Z.of_nat (nat_of_ascii (pretty_N_char d)) - 48)%Z = Z.of_N d.
Proof.
  intros Hd.
  assert (d = 0 \/ d = 1 \/ d = 2 \/ d = 3 \/ d = 4 \/ d = 5 \/ d = 6 \/ d = 7 \/
          d = 8 \/ d = 9)%N as H by lia.
  repeat (destruct H as [->|H]; [by split|]). by subst.
Qed.

Lemma pretty_N_go_app (x : N) (s : string) :
  pretty_N_go x s = pretty_N_go x "" +:+ s.
Proof.
  revert s. induction (N.lt_wf_0 x) as [x _ IH]; intros s.
  assert (x = 0 \/ 0 < x)%N as [->|Hx] by lia; [done|].
  rewrite !(pretty_N_go_step x) by done.
  rewrite (IH (x `div` 10)%N) by (by apply N.div_lt).
  rewrite (IH (x `div` 10)%N ltac:(by apply N.div_lt) (String _ "")).
  by rewrite append_assoc.
Qed.

Lemma pretty_N_go_digits (x : N) :
  PyStr.all_digits (pretty_N_go x "") = true /\
  PyStr.digits_value 0 (pretty_N_go x "") = Z.of_N x.
Proof.
  induction (N.lt_wf_0 x) as [x _ IH].
  assert (x = 0 \/ 0 < x)%N as [->|Hx] by lia; [done|].
  rewrite pretty_N_go_step, pretty_N_go_app by done.
  destruct (IH (x `div` 10)%N ltac:(by apply N.div_lt)) as [Hd Hv].
  destruct (pretty_N_char_digit (x `mod` 10)%N ltac:(by apply N.mod_lt)) as [Hc Hcv].
  split.
  - rewrite all_digits_app, Hd. simpl. by rewrite Hc.
  - rewrite digits_value_app, Hv. simpl. rewrite Hcv.
    rewrite (N.div_mod x 10) at 3 by done. lia.
Qed.

Lemma pretty_N_go_nonempty (x : N) : (0 < x)%N -> pretty_N_go x "" ≠ "".
Proof.
  intros Hx. rewrite pretty_N_go_step, pretty_N_go_app by done.
  destruct (pretty_N_go (x `div` 10) ""); discriminate.
Qed.

Lemma digit_is_no_space c : PyStr.isdigit c = true -> PyStr.isspace c = false.
Proof.
  unfold PyStr.isdigit, PyStr.isspace. intros H.
  apply andb_true_iff in H as [H1 H2].
  apply Nat.leb_le in H1. apply Nat.leb_le in H2.
  apply orb_false_iff. split.
  - apply Nat.eqb_neq. lia.
  - apply andb_false_iff. right. apply Nat.leb_gt. lia.
Qed.

Lemma rstrip_digits s : PyStr.all_digits s = true -> PyStr.rstrip s = s.
Proof.
  induction s as [|c s IH]; [done|]. simpl. intros H.
  apply andb_true_iff in H as [Hc Hs]. rewrite (IH Hs).
  destruct s; [|done]. by rewrite (digit_is_no_space _ Hc).
Qed.

Lemma strip_digits s : PyStr.all_digits s = true -> PyStr.strip s = s.
Proof.
  intros H. unfold PyStr.strip.
  assert (PyStr.lstrip s = s) as ->; [|by apply rstrip_digits].
  destruct s as [|c s]; [done|]. simpl in *.
  apply andb_true_iff in H as [Hc _]. by rewrite (digit_is_no_space _ Hc).
Qed.

(** [int] reads a non-empty run of digits, with or without a minus sign in
    front, as its value. *)
Lemma py_int_digits s :
  s ≠ "" -> PyStr.all_digits s = true ->
  py_int s = inr (PyStr.digits_value 0 s) /\
  py_int (String "-" s) = inr (- PyStr.digits_value 0 s)%Z.
Proof.
  intros Hne Hd. split.
  - unfold py_int. rewrite (strip_digits _ Hd).
    destruct s as [|c s]; [done|].
    destruct c as [[] [] [] [] [] [] [] []]; try discriminate Hd;
      cbn [PyStr.all_digits] in Hd |- *; rewrite Hd; reflexivity.
  - assert (Hs : PyStr.strip (String "-" s) = String "-" s).
    { unfold PyStr.strip. cbn [PyStr.lstrip]. 
      change (PyStr.isspace "-") with false. cbn iota.
      cbn [PyStr.rstrip]. rewrite (rstrip_digits _ Hd). by destruct s. }
    unfold py_int. rewrite Hs. destruct s as [|c s]; [done|].
    by rewrite Hd.
Qed.

(** [int(str(n))] is [n]. *)
Lemma py_int_py_str (n : Z) : py_int (py_str n) = inr n.
Proof.
  unfold py_str, pretty, pretty_Z.
  destruct n as [|p|p]; [done|..];
    unfold pretty, pretty_positive, pretty, pretty_N;
    (destruct (decide (N.pos p = 0%N)); [done|]);
    destruct (pretty_N_go_digits (N.pos p)) as [Hd Hv];
    destruct (py_int_digits _ (pretty_N_go_nonempty (N.pos p) ltac:(lia)) Hd)
      as [Hpos Hneg].
  - rewrite Hpos, Hv. reflexivity.
  - change ("-" +:+ pretty_N_go (N.pos p) "")
      with (String "-" (pretty_N_go (N.pos p) "")).
    rewrite Hneg, Hv. reflexivity.
Qed.

End RoundTrip.

(** X10: the port is not checked against any range: for every integer
    [n], negative ones included, [--port] followed by the decimal text of
    [n] is accepted as the port (a text that starts with a minus sign is
    taken as the value, not as flags) and the program connects to
    [localhost:] followed by that same text. *)
Theorem any_integer_port_is_passed_on (fuel : nat) (env : Env)
    (b : gmap string (list Partition)) (n : Z) (topic : string) :
  sys_argv_tail env = ["--port"; py_str n; topic] ->
  PyStr.startswith topic "-" = false ->
  interrupt_at env ≠ Some 0 ->
  accepted (sys_argv_tail env) [("--port", py_str n)] topic /\
  head (events (run fuel env b).2) = Some (EvConnect ("localhost:" +:+ py_str n)).
Proof.
  intros Hargs Htopic Hi.
  assert (Hacc : accepted (sys_argv_tail env) [("--port", py_str n)] topic).
  { rewrite Hargs. unfold accepted, kafcat_getopt, Getopt.getopt.
    change (Getopt.getopt_loop 3 [("--port", py_str n)] [topic] "bf"
              ["host="; "port="] = Some (inr ([("--port", py_str n)], [topic]))).
    cbn [Getopt.getopt_loop]. rewrite Htopic. reflexivity. }
  split; [exact Hacc|].
  assert (Hport : py_int (port_text [("--port", py_str n)]) = inr n).
  { unfold port_text, dict, dict_get. cbn [fold_left fst snd].
    rewrite lookup_insert_eq. apply py_int_py_str. }
  rewrite (connect_is_first_event _ _ _ _ _ _ Hacc Hport Hi).
  unfold hostport, dict, dict_get. cbn [fold_left fst snd].
  rewrite lookup_insert_ne by done. rewrite lookup_empty. reflexivity.
Qed.

Lemma any_integer_port_is_passed_on_witness :
  head (events (run 2 (scenario ["--port"; "-5"; "orders"] None) orders_broker).2)
    = Some (EvConnect "localhost:-5").
Proof.
  exact (proj2 (any_integer_port_is_passed_on 2
                  (scenario ["--port"; "-5"; "orders"] None) orders_broker
                  (-5)%Z "orders" eq_refl eq_refl ltac:(discriminate))).
Defined.

(** ** What a run depends on *)
Section Surroundings.

Variables (argv0 argv0' : string) (args args' : list string).
Variables (interrupt : option nat) (prod : nat -> list (nat * string)) (up : bool).

Let env1 := mkEnv argv0 args interrupt prod up.
Let env2 := mkEnv argv0' args' interrupt prod up.

(** The loop does not look at the command line. *)
Lemma loop_same topic timeout fuel : forall w offs,
  consumer w = Some (mkConsumer topic offs timeout) ->
  for_in_consumer fuel print_message env1 w =
  for_in_consumer fuel print_message env2 w.
Proof.
  induction fuel as [|fuel IH]; intros w offs Hc; [done|].
  simpl. unfold mbind, M_bind, bind.
  rewrite !(next_round _ _ _ _ _ Hc). simpl.
  case_bool_decide; [done|].
  destruct (Kafka.first_available _ _ _) as [[[i o] m]|].
  - rewrite !print_round. simpl. case_bool_decide; [done|].
    by apply (IH _ (<[i := S o]> offs)).
  - destruct timeout; [done|]. by apply (IH _ offs).
Qed.

Lemma stream_same topic timeout fuel w offs :
  consumer w = Some (mkConsumer topic offs timeout) ->
  stream fuel env1 w = stream fuel env2 w.
Proof.
  intros Hc. unfold stream, try_except, mbind, M_bind, bind.
  rewrite <- (loop_same topic timeout fuel w offs Hc).
  destruct (for_in_consumer_spec env1 topic timeout fuel w offs Hc)
    as (ending & fetched & w1 & Hrun & _ & Hcons & _).
  rewrite Hrun.
  destruct ending; cbn [result_of handler].
  - unfold interruptible.
    change (interrupt_at env1) with interrupt.
    change (interrupt_at env2) with interrupt.
    case_bool_decide.
    + cbn [handler].
      by rewrite !(on_interrupt_bound _ (set_clock (S (clock w1)) w1) _ _ _ Hcons).
    + by rewrite !(commit_eq _ (set_clock (S (clock w1)) w1) _ _ _ Hcons).
  - reflexivity.
  - by rewrite !(on_interrupt_bound _ _ _ _ _ Hcons).
  - by rewrite !(on_interrupt_bound _ _ _ _ _ Hcons).
Qed.

End Surroundings.

(** X11: the options act only through the dictionary made of them: two
    accepted command lines for the same topic whose options give the same
    dictionary (flags in another order, clustered or repeated, options
    abbreviated) lead to the same run, and so does another name of the
    program. *)
Theorem run_depends_on_options_dictionary (fuel : nat) (env1 env2 : Env)
    (b : gmap string (list Partition)) (opts1 opts2 : list (string * string))
    (topic : string) :
  accepted (sys_argv_tail env1) opts1 topic ->
  accepted (sys_argv_tail env2) opts2 topic ->
  dict opts1 = dict opts2 ->
  same_surroundings env1 env2 ->
  run fuel env1 b = run fuel env2 b.
Proof.
  intros Hacc1 Hacc2 Hd (Hi & Hp & Hu).
  destruct env1 as [a1 t1 i1 p1 u1], env2 as [a2 t2 i2 p2 u2].
  simpl in Hi, Hp, Hu. subst i2 p2 u2.
  assert (Hpt : port_text opts1 = port_text opts2)
    by (unfold port_text; by rewrite Hd).
  destruct (py_int (port_text opts1)) as [e|port] eqn:Hport.
  { rewrite (run_bad_port _ _ _ _ _ _ Hacc1 Hport).
    rewrite Hpt in Hport. by rewrite (run_bad_port _ _ _ _ _ _ Hacc2 Hport). }
  rewrite (run_eq _ _ _ _ _ _ Hacc1 Hport).
  rewrite Hpt in Hport. rewrite (run_eq _ _ _ _ _ _ Hacc2 Hport).
  unfold hostport, iter_timeout_of. rewrite Hd. simpl.
  repeat (case_bool_decide; [done|]).
  destruct u1; [|done].
  destruct (dict_in "-b" (dict opts2)).
  - repeat (case_bool_decide; [done|]).
    by eapply (stream_same a1 a2 t1 t2 i1 p1 true topic _ fuel _ (earliest b topic)).
  - by eapply (stream_same a1 a2 t1 t2 i1 p1 true topic _ fuel _ (committed b topic)).
Qed.

Lemma run_depends_on_options_dictionary_witness :
  run 9 (scenario ["-bf"; "orders"] None) orders_broker =
  run 9 (mkEnv "kc" ["-f"; "-b"; "-f"; "--"; "orders"] None (fun _ => []) true)
    orders_broker.
Proof.
  apply (run_depends_on_options_dictionary 9
           (scenario ["-bf"; "orders"] None)
           (mkEnv "kc" ["-f"; "-b"; "-f"; "--"; "orders"] None (fun _ => []) true)
           orders_broker
           [("-b", ""); ("-f", "")] [("-f", ""); ("-b", ""); ("-f", "")] "orders").
  - vm_compute. reflexivity.
  - vm_compute. reflexivity.
  - vm_compute. reflexivity.
  - repeat split.
Defined.

(** ** An interrupt at the last commit *)
Section LastCommit.

Variables (env : Env) (k : nat).
Hypothesis Hnone : interrupt_at env = None.

Let env' := with_interrupt (Some k) env.

(** An interrupt that is due after the loop has ended does not change the
    loop. *)
Lemma loop_before_interrupt topic timeout fuel : forall w offs r w1,
  consumer w = Some (mkConsumer topic offs timeout) ->
  for_in_consumer fuel print_message env w = (r, w1) ->
  fuel ≠ 0 -> clock w1 <= k ->
  for_in_consumer fuel print_message env' w = (r, w1).
Proof.
  induction fuel as [|fuel IH]; intros w offs r w1 Hc Hrun Hfuel Hk; [done|].
  revert Hrun. simpl. unfold mbind, M_bind, bind.
  rewrite !(next_round _ _ _ _ _ Hc), Hnone. simpl.
  set (b' := alter _ topic (broker w)).
  assert (Hmono : forall w2 offs2,
            consumer w2 = Some (mkConsumer topic offs2 timeout) ->
            for_in_consumer fuel print_message env w2 = (r, w1) ->
            clock w2 <= clock w1).
  { intros w2 offs2 Hc2 Hrun2.
    destruct (for_in_consumer_spec env topic timeout fuel w2 offs2 Hc2)
      as (ending & fetched & w' & Hrun' & _ & _ & _ & _ & Hclk & _).
    rewrite Hrun2 in Hrun'. by injection Hrun' as _ <-. }
  assert (Hrest : forall w2 offs2,
            consumer w2 = Some (mkConsumer topic offs2 timeout) ->
            for_in_consumer fuel print_message env w2 = (r, w1) ->
            for_in_consumer fuel print_message env' w2 = (r, w1)).
  { intros w2 offs2 Hc2 Hrun2. destruct fuel as [|fuel'].
    - exact Hrun2.
    - by apply (IH w2 offs2). }
  destruct (Kafka.first_available 0 (partitions b' topic) offs)
    as [[[i o] m]|] eqn:Hav.
  - rewrite !print_round, Hnone. simpl. intros Hrun.
    match type of Hrun with for_in_consumer _ _ _ ?w2 = _ =>
      pose proof (Hmono w2 (<[i := S o]> offs) eq_refl Hrun) as Hle end.
    simpl in Hle.
    rewrite bool_decide_eq_false_2 by (intros [= Heq]; lia).
    cbn beta iota. rewrite print_round. simpl.
    rewrite bool_decide_eq_false_2 by (intros [= Heq]; lia).
    by apply (Hrest _ (<[i := S o]> offs)).
  - destruct timeout as [t|]; simpl.
    + intros [= <- <-]. simpl in Hk.
      by rewrite bool_decide_eq_false_2 by (intros [= Heq]; lia).
    + intros Hrun.
      match type of Hrun with for_in_consumer _ _ _ ?w2 = _ =>
        pose proof (Hmono w2 offs Hc Hrun) as Hle end.
      simpl in Hle.
      rewrite bool_decide_eq_false_2 by (intros [= Heq]; lia).
      by apply (Hrest _ offs).
Qed.

(** If the interrupt falls on the commit after the loop, the handler makes
    that commit. *)
Lemma stream_interrupted_at_last_commit topic timeout fuel w offs w' :
  consumer w = Some (mkConsumer topic offs timeout) ->
  stream fuel env w = (Ok tt, w') ->
  clock w' = S k ->
  stream fuel env' w = (Raise (SystemExit 130), w').
Proof.
  intros Hc Hstream Hk.
  destruct (for_in_consumer_spec env topic timeout fuel w offs Hc)
    as (ending & fetched & w1 & Hrun & _ & Hcons & _ & _ & _ & Hend).
  revert Hstream. unfold stream, try_except, mbind, M_bind, bind. rewrite Hrun.
  destruct ending; simpl in *; rewrite ?app_nil_r in *; try discriminate.
  2: { destruct Hend. congruence. }
  2: { destruct Hend. congruence. }
  unfold interruptible at 1. rewrite Hnone. simpl.
  rewrite (commit_eq _ (set_clock (S (clock w1)) w1) _ _ _ Hcons).
  intros [= <-]. simpl in Hk. injection Hk as Hk.
  assert (Hfuel : fuel ≠ 0) by (intros ->; discriminate Hrun).
  rewrite (loop_before_interrupt topic timeout fuel w offs _ _ Hc Hrun Hfuel)
    by lia.
  unfold interruptible. change (interrupt_at env') with (Some k). rewrite Hk.
  rewrite bool_decide_eq_true_2 by done. cbn [handler].
  exact (on_interrupt_bound _ (set_clock (S k) w1) _ _ _ Hcons).
Qed.

End LastCommit.

(** A run that ended normally read a topic the broker knows. *)
Lemma run_ok_topic_known fuel env b w opts topic :
  accepted (sys_argv_tail env) opts topic ->
  run fuel env b = (Ok tt, w) ->
  is_Some (b !! topic).
Proof.
  intros Hacc Hrun.
  destruct (py_int (port_text opts)) as [e|port] eqn:Hport.
  { rewrite (run_bad_port _ _ _ _ _ _ Hacc Hport) in Hrun. discriminate. }
  destruct (run_cases fuel env b opts topic port Hacc Hport) as (r & w' & Hrun' & Hc).
  rewrite Hrun in Hrun'. injection Hrun' as <- <-.
  by inversion Hc; subst.
Qed.

(** X12: an interrupt that arrives at the commit after the loop loses
    nothing: the handler makes the commit, so the events and the state of
    the broker are those of the run without the interrupt, and only the exit
    status changes from 0 to 130. *)
Theorem interrupt_at_last_commit_still_commits (fuel : nat) (env : Env)
    (b : gmap string (list Partition)) (w : World) (k : nat) :
  interrupt_at env = None ->
  run fuel env b = (Ok tt, w) ->
  clock w = S k ->
  run fuel (with_interrupt (Some k) env) b = (Raise (SystemExit 130), w).
Proof.
  intros Hnone Hrun Hk.
  destruct (run_ok_completed _ _ _ _ Hrun)
    as (opts & topic & port & fetched & Hacc & Hport & _).
  assert (Hup : broker_up env = true).
  { destruct (broker_up env) eqn:Hup; [done|].
    rewrite (run_eq _ _ _ _ _ _ Hacc Hport) in Hrun. simpl in Hrun.
    rewrite Hnone, Hup in Hrun. simpl in Hrun. discriminate. }
  assert (Hknown : is_Some (b !! topic)) by (by eapply run_ok_topic_known).
  assert (Hstream : run fuel env b = stream fuel env (w_start b opts topic port)).
  { apply run_stream_start; auto. intros j Hj. congruence. }
  rewrite Hstream in Hrun.
  assert (Hle : clock (w_start b opts topic port) <= k).
  { destruct (for_in_consumer_spec env topic (iter_timeout_of opts) fuel
                (w_start b opts topic port) (start_offsets b opts topic)
                (consumer_w_start b opts topic port))
      as (ending & fetched' & w1 & Hloop & _ & Hcons & _ & _ & Hclk & Hend).
    revert Hrun. unfold stream, try_except, mbind, M_bind, bind. rewrite Hloop.
    destruct ending; cbn [result_of]; try discriminate.
    - unfold interruptible. rewrite Hnone. simpl.
      rewrite (commit_eq _ (set_clock (S (clock w1)) w1) _ _ _ Hcons).
      intros [= <-]. simpl in Hk. lia.
    - destruct Hend. congruence.
    - destruct Hend. congruence. }
  rewrite (run_stream_start fuel (with_interrupt (Some k) env) b opts topic port).
  - eapply stream_interrupted_at_last_commit; eauto. apply consumer_w_start.
  - exact Hacc.
  - exact Hport.
  - exact Hup.
  - simpl. intros j [= <-] _. exact Hle.
  - exact Hknown.
Qed.

Lemma interrupt_at_last_commit_still_commits_witness :
  run 9 (scenario ["orders"] None) orders_broker =
    (Ok tt, (run 9 (scenario ["orders"] None) orders_broker).2) /\
  run 9 (with_interrupt (Some 7) (scenario ["orders"] None)) orders_broker =
    (Raise (SystemExit 130), (run 9 (scenario ["orders"] None) orders_broker).2).
Proof.
  assert (H : run 9 (scenario ["orders"] None) orders_broker =
              (Ok tt, (run 9 (scenario ["orders"] None) orders_broker).2))
    by (vm_compute; reflexivity).
  split; [exact H|].
  apply (interrupt_at_last_commit_still_commits 9 (scenario ["orders"] None)
           orders_broker _ 7 eq_refl H).
  vm_compute. reflexivity.
Defined.
